(** * QueryBuilder: a fluent builder of Cypher query text

    Shallow embedding of [src/querybuilder/QueryBuilder.ts].

    The class is a mutable object: every method but [build] and
    [getParameters] mutates [this] and returns it.  Builders are therefore
    modelled as records living in a store and addressed by reference, and
    the methods as computations of a state-and-failure monad over that
    store.  The [parameters] field holds a reference to a JavaScript object
    (a string-keyed map) living in the same store, so that the copy made by
    [getParameters] is an object of its own. *)

From Stdlib Require Import ZArith String Ascii List DecimalString Lia.
From Stdlib Require DecimalPos DecimalZ.
From stdpp Require Import gmap strings list.

Local Open Scope Z_scope.
Local Open Scope string_scope.
Local Open Scope list_scope.
Local Open Scope stdpp_scope.

(** ** Strings *)

(** The line feed, written ['\n'] in the source. *)
Definition LF : ascii := "010"%char.
Definition nl : string := String LF EmptyString.

(** [Boolean] on a string, as used by [parts.filter(Boolean)]: the empty
    string is the only falsy string. *)
Definition Boolean (s : string) : bool :=
  match s with
  | EmptyString => false
  | String _ _ => true
  end.

(** [parts.join('\n')]. *)
Definition join (sep : string) (parts : list string) : string :=
  String.concat sep parts.

(** The TypeScript type [number], restricted to the integers.  A template
    literal prints a safe integer, one of absolute value at most 2^53 - 1,
    in plain decimal, with a leading minus sign when negative.  Beyond the
    safe integers not every integer is a [number], and JavaScript prints
    the shortest digits that read back, in exponent form from 10^21 on;
    [number_to_string] does not follow it there, and the statements that
    name the printed number are about safe integers.  The others use of the
    printed form only that it is not empty and has no line feed. *)
Abbreviation number := Z (only parsing).

Definition number_to_string (n : number) : string :=
  NilZero.string_of_int (Z.to_int n).

(** [s.split('\n')]: the lines of a text. *)
Fixpoint lines (s : string) : list string :=
  match s with
  | EmptyString => [EmptyString]
  | String c s' =>
      if Ascii.eqb c LF then EmptyString :: lines s'
      else match lines s' with
           | l :: ls => String c l :: ls
           | [] => [String c EmptyString]
           end
  end.

(** [s.startsWith(kw)]. *)
Fixpoint starts_with (kw s : string) : bool :=
  match kw with
  | EmptyString => true
  | String a kw' =>
      match s with
      | EmptyString => false
      | String b s' => Ascii.eqb a b && starts_with kw' s'
      end
  end.

(** [s.endsWith('\n')]. *)
Fixpoint ends_with_newline (s : string) : bool :=
  match s with
  | EmptyString => false
  | String c EmptyString => Ascii.eqb c LF
  | String _ s' => ends_with_newline s'
  end.

(** [s.includes('\n')]. *)
Fixpoint has_newline (s : string) : bool :=
  match s with
  | EmptyString => false
  | String c s' => Ascii.eqb c LF || has_newline s'
  end.

(** ** The store *)

(** References into the store. *)
Abbreviation loc := nat (only parsing).

(** The fields of a [QueryBuilder] instance.  The three arrays are private
    and never handed out, so they are kept by value; [parameters] is a
    reference to an object of the store. *)
Record QueryBuilder : Type := mkQueryBuilder {
  matchClauses : list string;
  whereClauses : list string;
  withClauses : list string;
  returnClause : string;
  orderByClause : string;
  skipValue : option number;
  limitValue : option number;
  parameters : loc
}.

Definition set_matchClauses (v : list string) (b : QueryBuilder) : QueryBuilder :=
  mkQueryBuilder v (whereClauses b) (withClauses b) (returnClause b)
    (orderByClause b) (skipValue b) (limitValue b) (parameters b).

Definition set_whereClauses (v : list string) (b : QueryBuilder) : QueryBuilder :=
  mkQueryBuilder (matchClauses b) v (withClauses b) (returnClause b)
    (orderByClause b) (skipValue b) (limitValue b) (parameters b).

Definition set_withClauses (v : list string) (b : QueryBuilder) : QueryBuilder :=
  mkQueryBuilder (matchClauses b) (whereClauses b) v (returnClause b)
    (orderByClause b) (skipValue b) (limitValue b) (parameters b).

Definition set_returnClause (v : string) (b : QueryBuilder) : QueryBuilder :=
  mkQueryBuilder (matchClauses b) (whereClauses b) (withClauses b) v
    (orderByClause b) (skipValue b) (limitValue b) (parameters b).

Definition set_orderByClause (v : string) (b : QueryBuilder) : QueryBuilder :=
  mkQueryBuilder (matchClauses b) (whereClauses b) (withClauses b)
    (returnClause b) v (skipValue b) (limitValue b) (parameters b).

Definition set_skipValue (v : option number) (b : QueryBuilder) : QueryBuilder :=
  mkQueryBuilder (matchClauses b) (whereClauses b) (withClauses b)
    (returnClause b) (orderByClause b) v (limitValue b) (parameters b).

Definition set_limitValue (v : option number) (b : QueryBuilder) : QueryBuilder :=
  mkQueryBuilder (matchClauses b) (whereClauses b) (withClauses b)
    (returnClause b) (orderByClause b) (skipValue b) v (parameters b).

(** The field initialisers of the class, and the assignments of [clear]. *)
Definition empty_fields (p : loc) : QueryBuilder :=
  mkQueryBuilder [] [] [] "" "" None None p.

(** The array [parts] that [build] assembles, before [filter]. *)
Definition build_parts (b : QueryBuilder) : list string :=
  let parts :=
    matchClauses b ++ whereClauses b ++ withClauses b
      ++ [returnClause b; orderByClause b] in
  let parts :=
    match skipValue b with
    | Some n => parts ++ ["SKIP " +:+ number_to_string n]
    | None => parts
    end in
  match limitValue b with
  | Some n => parts ++ ["LIMIT " +:+ number_to_string n]
  | None => parts
  end.

(** The text [build] returns for an instance with fields [b]. *)
Definition render (b : QueryBuilder) : string :=
  join nl (List.filter Boolean (build_parts b)).

Section Store.

(** The type [any] of parameter values; the builder never looks inside. *)
Context {V : Type}.

(** The store: the builders, and the objects used as
    [Record<string, any>], each given by its own properties.  Parameter
    values are data: the prototype of an object, which an assignment to
    [__proto__] may replace, is not part of the store. *)
Record heap : Type := mkHeap {
  builders : list QueryBuilder;
  objects : list (gmap string V)
}.

Definition empty_heap : heap := mkHeap [] [].

(** Computations on the store.  [None] is the use of a reference that was
    never allocated, which no TypeScript program does. *)
Definition M (A : Type) : Type := heap -> option (A * heap).

Definition ret {A : Type} (a : A) : M A := fun h => Some (a, h).

Definition bind {A B : Type} (m : M A) (k : A -> M B) : M B :=
  fun h => match m h with
           | Some (a, h') => k a h'
           | None => None
           end.

End Store.

Arguments heap V : clear implicits.
Arguments M V A : clear implicits.

Declare Scope qb_scope.
Delimit Scope qb_scope with qb.
Notation "x <- m ;; k" := (bind m (fun x => k))
  (at level 100, m at next level, right associativity) : qb_scope.
Notation "m ;;; k" := (bind m (fun _ => k))
  (at level 100, right associativity) : qb_scope.
Local Open Scope qb_scope.

Section Methods.

Context {V : Type}.

(** *** Store primitives *)

(** The object literal [{}], or a spread copy: a new object. *)
Definition new_object (o : gmap string V) : M V loc :=
  fun h => Some (length (objects h),
                 mkHeap (builders h) (objects h ++ [o])).

Definition read_object (p : loc) : M V (gmap string V) :=
  fun h => match objects h !! p with
           | Some o => Some (o, h)
           | None => None
           end.

Definition write_object (p : loc) (o : gmap string V) : M V unit :=
  fun h => match objects h !! p with
           | Some _ => Some (tt, mkHeap (builders h) (<[p := o]> (objects h)))
           | None => None
           end.

Definition get_fields (this : loc) : M V QueryBuilder :=
  fun h => match builders h !! this with
           | Some b => Some (b, h)
           | None => None
           end.

Definition put_fields (this : loc) (b : QueryBuilder) : M V unit :=
  fun h => match builders h !! this with
           | Some _ => Some (tt, mkHeap (<[this := b]> (builders h)) (objects h))
           | None => None
           end.

Definition alloc_builder (b : QueryBuilder) : M V loc :=
  fun h => Some (length (builders h),
                 mkHeap (builders h ++ [b]) (objects h)).

(** [Object.assign(target, source)]: every own property of [source] is
    written to [target]; the source wins on a common key. *)
Definition Object_assign (target source : loc) : M V unit :=
  t <- read_object target ;;
  s <- read_object source ;;
  write_object target (s ∪ t).

(** [new QueryBuilder()]. *)
Definition new_QueryBuilder : M V loc :=
  p <- new_object ∅ ;;
  alloc_builder (empty_fields p).

(** *** The methods of the class *)

Definition match_ (this : loc) (pattern : string) : M V loc :=
  b <- get_fields this ;;
  put_fields this
    (set_matchClauses (matchClauses b ++ ["MATCH " +:+ pattern]) b) ;;;
  ret this.

Definition optionalMatch (this : loc) (pattern : string) : M V loc :=
  b <- get_fields this ;;
  put_fields this
    (set_matchClauses (matchClauses b ++ ["OPTIONAL MATCH " +:+ pattern]) b) ;;;
  ret this.

Definition where_ (this : loc) (condition : string) : M V loc :=
  b <- get_fields this ;;
  put_fields this
    (set_whereClauses (whereClauses b ++ ["WHERE " +:+ condition]) b) ;;;
  ret this.

Definition andWhere (this : loc) (condition : string) : M V loc :=
  b <- get_fields this ;;
  if Nat.eqb (length (whereClauses b)) 0 then where_ this condition
  else
    put_fields this
      (set_whereClauses (whereClauses b ++ ["AND " +:+ condition]) b) ;;;
    ret this.

Definition orWhere (this : loc) (condition : string) : M V loc :=
  b <- get_fields this ;;
  if Nat.eqb (length (whereClauses b)) 0 then where_ this condition
  else
    put_fields this
      (set_whereClauses (whereClauses b ++ ["OR " +:+ condition]) b) ;;;
    ret this.

Definition with_ (this : loc) (expression : string) : M V loc :=
  b <- get_fields this ;;
  put_fields this
    (set_withClauses (withClauses b ++ ["WITH " +:+ expression]) b) ;;;
  ret this.

Definition return_ (this : loc) (expression : string) : M V loc :=
  b <- get_fields this ;;
  put_fields this (set_returnClause ("RETURN " +:+ expression) b) ;;;
  ret this.

Definition orderBy (this : loc) (expression : string) : M V loc :=
  b <- get_fields this ;;
  put_fields this (set_orderByClause ("ORDER BY " +:+ expression) b) ;;;
  ret this.

Definition skip (this : loc) (count : number) : M V loc :=
  b <- get_fields this ;;
  put_fields this (set_skipValue (Some count) b) ;;;
  ret this.

Definition limit (this : loc) (count : number) : M V loc :=
  b <- get_fields this ;;
  put_fields this (set_limitValue (Some count) b) ;;;
  ret this.

(** The assignment [o[name] = value] on an object made by [{}]: it stores
    an own property, but for the name [__proto__], which reaches the
    accessor of [Object.prototype] and stores none. *)
Definition assign_property (name : string) (value : V) (o : gmap string V)
  : gmap string V :=
  if String.eqb name "__proto__" then o else <[name := value]> o.

Definition setParameter (this : loc) (name : string) (value : V) : M V loc :=
  b <- get_fields this ;;
  o <- read_object (parameters b) ;;
  write_object (parameters b) (assign_property name value o) ;;;
  ret this.

Definition build (this : loc) : M V string :=
  b <- get_fields this ;;
  ret (render b).

Definition getParameters (this : loc) : M V loc :=
  b <- get_fields this ;;
  o <- read_object (parameters b) ;;
  new_object o.

Definition clear (this : loc) : M V loc :=
  b <- get_fields this ;;
  p <- new_object ∅ ;;
  put_fields this (empty_fields p) ;;;
  ret this.

Definition subquery (this : loc) (callback : loc -> M V unit) : M V loc :=
  subBuilder <- new_QueryBuilder ;;
  callback subBuilder ;;;
  subquery <- build subBuilder ;;
  b <- get_fields this ;;
  put_fields this
    (set_matchClauses (matchClauses b ++ ["(" +:+ subquery +:+ ")"]) b) ;;;
  b <- get_fields this ;;
  source <- getParameters subBuilder ;;
  Object_assign (parameters b) source ;;;
  ret this.

Definition union (this otherQuery : loc) : M V loc :=
  currentQuery <- build this ;;
  unionQuery <- build otherQuery ;;
  clear this ;;;
  b <- get_fields this ;;
  put_fields this
    (set_matchClauses
       (matchClauses b
          ++ [currentQuery +:+ nl +:+ "UNION" +:+ nl +:+ unionQuery]) b) ;;;
  b <- get_fields this ;;
  source <- getParameters otherQuery ;;
  Object_assign (parameters b) source ;;;
  ret this.

Definition unionAll (this otherQuery : loc) : M V loc :=
  currentQuery <- build this ;;
  unionQuery <- build otherQuery ;;
  clear this ;;;
  b <- get_fields this ;;
  put_fields this
    (set_matchClauses
       (matchClauses b
          ++ [currentQuery +:+ nl +:+ "UNION ALL" +:+ nl +:+ unionQuery]) b) ;;;
  b <- get_fields this ;;
  source <- getParameters otherQuery ;;
  Object_assign (parameters b) source ;;;
  ret this.

End Methods.


(** ** Client programs

    A client of the class allocates builders and calls their methods.  The
    calls that can be chained on one builder are the constructors of [call];
    the callback handed to [subquery] is the chain of calls it makes on the
    builder it receives. *)

#[local] Set Warnings "-register-all".

Inductive call {V : Type} : Type :=
| Match (pattern : string)
| OptionalMatch (pattern : string)
| Where (condition : string)
| AndWhere (condition : string)
| OrWhere (condition : string)
| With (expression : string)
| Return (expression : string)
| OrderBy (expression : string)
| Skip (count : number)
| Limit (count : number)
| SetParameter (name : string) (value : V)
| Clear
| Subquery (callback : list call)
| Union (otherQuery : loc)
| UnionAll (otherQuery : loc).

Arguments call V : clear implicits.

Inductive stmt {V : Type} : Type :=
| New
| Call (this : loc) (c : call V)
| Build (this : loc)
| GetParameters (this : loc).

Arguments stmt V : clear implicits.

Section Programs.

Context {V : Type}.

(** [this.c], for a call [c]. *)
Fixpoint call_on (c : call V) (this : loc) {struct c} : M V loc :=
  match c with
  | Match pattern => match_ this pattern
  | OptionalMatch pattern => optionalMatch this pattern
  | Where condition => where_ this condition
  | AndWhere condition => andWhere this condition
  | OrWhere condition => orWhere this condition
  | With expression => with_ this expression
  | Return expression => return_ this expression
  | OrderBy expression => orderBy this expression
  | Skip count => skip this count
  | Limit count => limit this count
  | SetParameter name value => setParameter this name value
  | Clear => clear this
  | Subquery callback =>
      subquery this
        (fun subBuilder =>
           (fix chain (cs : list (call V)) : M V unit :=
              match cs with
              | [] => ret tt
              | c' :: cs' => call_on c' subBuilder ;;; chain cs'
              end) callback)
  | Union otherQuery => union this otherQuery
  | UnionAll otherQuery => unionAll this otherQuery
  end.

(** [this.c1.c2. ... .cn], a fluent chain. *)
Definition chain_on (cs : list (call V)) (this : loc) : M V unit :=
  (fix chain (cs : list (call V)) : M V unit :=
     match cs with
     | [] => ret tt
     | c' :: cs' => call_on c' this ;;; chain cs'
     end) cs.

Definition exec (s : stmt V) : M V unit :=
  match s with
  | New => new_QueryBuilder ;;; ret tt
  | Call this c => call_on c this ;;; ret tt
  | Build this => build this ;;; ret tt
  | GetParameters this => getParameters this ;;; ret tt
  end.

Fixpoint run (p : list (stmt V)) : M V unit :=
  match p with
  | [] => ret tt
  | s :: p' => exec s ;;; run p'
  end.

(** The stores a client can reach, starting with no object at all. *)
Definition reachable (h : heap V) : Prop :=
  exists p : list (stmt V), run p empty_heap = Some (tt, h).

End Programs.

(** ** Vocabulary of the statements *)

(** The entry [union] and [unionAll] leave in the match buffer. *)
Definition union_entry (keyword currentQuery unionQuery : string) : string :=
  currentQuery +:+ nl +:+ keyword +:+ nl +:+ unionQuery.

(** The fields of [this] after [union] or [unionAll]. *)
Definition union_fields (keyword : string) (A B : QueryBuilder) (p : loc)
  : QueryBuilder :=
  mkQueryBuilder [union_entry keyword (render A) (render B)] [] [] "" ""
    None None p.

(** The fragment a clause-adding call appends, by buffer. *)
Definition match_fragment {V : Type} (c : call V) : list string :=
  match c with
  | Match pattern => ["MATCH " +:+ pattern]
  | OptionalMatch pattern => ["OPTIONAL MATCH " +:+ pattern]
  | _ => []
  end.

Definition where_fragment {V : Type} (c : call V) : list string :=
  match c with
  | Where condition => ["WHERE " +:+ condition]
  | _ => []
  end.

Definition with_fragment {V : Type} (c : call V) : list string :=
  match c with
  | With expression => ["WITH " +:+ expression]
  | _ => []
  end.

(** The calls [match], [optionalMatch], [where] and [with]. *)
Definition clause_adding {V : Type} (c : call V) : bool :=
  match c with
  | Match _ | OptionalMatch _ | Where _ | With _ => true
  | _ => false
  end.

(** The fragments a builder stores: its three buffers and two slots. *)
Definition stored_fragments (b : QueryBuilder) : list string :=
  matchClauses b ++ whereClauses b ++ withClauses b
    ++ [returnClause b; orderByClause b].

(** The lines [build] adds for the pagination values. *)
Definition skip_line (n : number) : string := "SKIP " +:+ number_to_string n.
Definition limit_line (n : number) : string := "LIMIT " +:+ number_to_string n.

Definition pagination_parts (b : QueryBuilder) : list string :=
  match skipValue b with Some n => [skip_line n] | None => [] end
  ++ match limitValue b with Some n => [limit_line n] | None => [] end.

(** The fields of a builder after a chain of clause-adding calls. *)
Definition add_fragments {V : Type} (cs : list (call V)) (b : QueryBuilder)
  : QueryBuilder :=
  mkQueryBuilder
    (matchClauses b ++ flat_map match_fragment cs)
    (whereClauses b ++ flat_map where_fragment cs)
    (withClauses b ++ flat_map with_fragment cs)
    (returnClause b) (orderByClause b) (skipValue b) (limitValue b)
    (parameters b).

(** The fields of [this] after a call other than [subquery], from its
    fields [b] before the call, the builders [bs] of the store and the
    number [p] of objects allocated so far. *)
Definition fields_after {V : Type} (c : call V) (b : QueryBuilder)
    (bs : list QueryBuilder) (p : loc) : QueryBuilder :=
  match c with
  | Match pattern =>
      set_matchClauses (matchClauses b ++ ["MATCH " +:+ pattern]) b
  | OptionalMatch pattern =>
      set_matchClauses (matchClauses b ++ ["OPTIONAL MATCH " +:+ pattern]) b
  | Where condition =>
      set_whereClauses (whereClauses b ++ ["WHERE " +:+ condition]) b
  | AndWhere condition =>
      if Nat.eqb (length (whereClauses b)) 0
      then set_whereClauses (whereClauses b ++ ["WHERE " +:+ condition]) b
      else set_whereClauses (whereClauses b ++ ["AND " +:+ condition]) b
  | OrWhere condition =>
      if Nat.eqb (length (whereClauses b)) 0
      then set_whereClauses (whereClauses b ++ ["WHERE " +:+ condition]) b
      else set_whereClauses (whereClauses b ++ ["OR " +:+ condition]) b
  | With expression =>
      set_withClauses (withClauses b ++ ["WITH " +:+ expression]) b
  | Return expression => set_returnClause ("RETURN " +:+ expression) b
  | OrderBy expression => set_orderByClause ("ORDER BY " +:+ expression) b
  | Skip count => set_skipValue (Some count) b
  | Limit count => set_limitValue (Some count) b
  | SetParameter _ _ => b
  | Clear => empty_fields p
  | Subquery _ => b
  | Union otherQuery =>
      match bs !! otherQuery with
      | Some B => union_fields "UNION" b B p
      | None => b
      end
  | UnionAll otherQuery =>
      match bs !! otherQuery with
      | Some B => union_fields "UNION ALL" b B p
      | None => b
      end
  end.

Definition is_subquery {V : Type} (c : call V) : bool :=
  match c with
  | Subquery _ => true
  | _ => false
  end.

(** A program is checked against a condition [adm] on its calls other than
    [subquery], each looked at in the store it is made in; the calls of a
    callback are checked on the sub-builder. *)
Fixpoint checked_call {V : Type} (adm : call V -> loc -> heap V -> bool)
    (c : call V) (this : loc) (h : heap V) {struct c} : bool :=
  match c with
  | Subquery callback =>
      match new_QueryBuilder h with
      | Some (subBuilder, h1) =>
          (fix go (cs : list (call V)) (h : heap V) : bool :=
             match cs with
             | [] => true
             | c' :: cs' =>
                 checked_call adm c' subBuilder h
                 && match call_on c' subBuilder h with
                    | Some (_, h') => go cs' h'
                    | None => true
                    end
             end) callback h1
      | None => true
      end
  | _ => adm c this h
  end.

Definition checked_chain {V : Type} (adm : call V -> loc -> heap V -> bool)
    (cs : list (call V)) (this : loc) (h : heap V) : bool :=
  (fix go (cs : list (call V)) (h : heap V) : bool :=
     match cs with
     | [] => true
     | c' :: cs' =>
         checked_call adm c' this h
         && match call_on c' this h with
            | Some (_, h') => go cs' h'
            | None => true
            end
     end) cs h.

Definition checked_stmt {V : Type} (adm : call V -> loc -> heap V -> bool)
    (s : stmt V) (h : heap V) : bool :=
  match s with
  | Call this c => checked_call adm c this h
  | _ => true
  end.

Fixpoint checked_run {V : Type} (adm : call V -> loc -> heap V -> bool)
    (p : list (stmt V)) (h : heap V) : bool :=
  match p with
  | [] => true
  | s :: p' =>
      checked_stmt adm s h
      && match exec s h with
         | Some (_, h') => checked_run adm p' h'
         | None => true
         end
  end.

(** A builder none of whose stored fragments ends with a line feed. *)
Definition tidy (b : QueryBuilder) : Prop :=
  Forall (fun f => ends_with_newline f = false) (stored_fragments b).

(** The calls that keep builders tidy: the text handed to a clause-adding
    call or a setter does not end with a line feed, and the other builder
    of a [union] or [unionAll] exists and renders to a non-empty text. *)
Definition newline_safe {V : Type} (c : call V) (this : loc) (h : heap V)
  : bool :=
  match c with
  | Match text | OptionalMatch text | Where text | AndWhere text
  | OrWhere text | With text | Return text | OrderBy text =>
      negb (ends_with_newline text)
  | Union otherQuery | UnionAll otherQuery =>
      match builders h !! otherQuery with
      | Some B => Boolean (render B)
      | None => false
      end
  | _ => true
  end.

(** A builder with a match clause is united with a builder left empty. *)
Definition union_with_empty {V : Type} : list (stmt V) :=
  [New; New; Call 0%nat (Match "(a)"); Call 0%nat (Union 1%nat)].

(** Two builders, a union and a nested subquery. *)
Definition union_then_subquery {V : Type} : list (stmt V) :=
  [New; New;
   Call 0%nat (Match "(p:Person)"); Call 0%nat (Return "p.name AS item");
   Call 1%nat (Match "(c:Car)"); Call 1%nat (Return "c.brand AS item");
   Call 0%nat (Union 1%nat);
   Call 0%nat (Subquery [Match "(x)"; Subquery []; Limit 0]);
   Call 0%nat (Limit 5)].

(** The two pagination values. *)
Inductive pagination : Type := SKIP | LIMIT.

Definition keyword (w : pagination) : string :=
  match w with
  | SKIP => "SKIP "
  | LIMIT => "LIMIT "
  end.

Definition pagination_line (w : pagination) (n : number) : string :=
  keyword w +:+ number_to_string n.

Definition pagination_value (w : pagination) (b : QueryBuilder)
  : option number :=
  match w with
  | SKIP => skipValue b
  | LIMIT => limitValue b
  end.




(** [f] applied to the last element of a list. *)
Fixpoint map_last {A : Type} (f : A -> A) (l : list A) : list A :=
  match l with
  | [] => []
  | [x] => [f x]
  | x :: l' => x :: map_last f l'
  end.



(** Two builders as a client would have them, and the program that makes
    them. *)
Definition person_fields : QueryBuilder :=
  mkQueryBuilder ["MATCH (p:Person)"] ["WHERE p.age > $minAge"] []
    "RETURN p.name AS item" "" None None 0%nat.

Definition car_fields : QueryBuilder :=
  mkQueryBuilder ["MATCH (c:Car)"] [] [] "RETURN c.brand AS item" ""
    None None 1%nat.

Definition person_parameters : gmap string Z := {[ "minAge" := 18 ]}.
Definition car_parameters : gmap string Z := {[ "year" := 2020 ]}.

Definition two_builders : heap Z :=
  mkHeap [person_fields; car_fields] [person_parameters; car_parameters].

Definition two_builders_program : list (stmt Z) :=
  [New; New;
   Call 0%nat (Match "(p:Person)");
   Call 0%nat (AndWhere "p.age > $minAge");
   Call 0%nat (SetParameter "minAge" 18);
   Call 0%nat (Return "p.name AS item");
   Call 1%nat (Match "(c:Car)");
   Call 1%nat (Return "c.brand AS item");
   Call 1%nat (SetParameter "year" 2020);
   Build 0%nat].

(** A chain of clause-adding calls. *)
Definition clause_chain : list (call Z) :=
  [Match "(p:Person)"; Where "p.age > $minAge"; With "p";
   OptionalMatch "(p)-[:OWNS]->(c:Car)"; Where "c.year > $year"].

(** The call [c], when it passes the check [adm], keeps the property [P]
    of every builder of the store. *)
Definition call_preserves {V : Type} (P : QueryBuilder -> Prop)
    (adm : call V -> loc -> heap V -> bool) (c : call V) : Prop :=
  forall this h r h',
    checked_call adm c this h = true ->
    Forall P (builders h) ->
    call_on c this h = Some (r, h') ->
    r = this /\ Forall P (builders h').

(** A store in which the [parameters] field of every builder refers to an
    allocated object. *)
Definition well_formed {V : Type} (h : heap V) : Prop :=
  Forall (fun b => (parameters b < length (objects h))%nat) (builders h).

(** The field a call writes, for the calls that write one field only. *)
Inductive field : Type :=
| FMatchClauses | FWhereClauses | FWithClauses | FReturnClause
| FOrderByClause | FSkipValue | FLimitValue | FParameters.

Definition written_field {V : Type} (c : call V) : option field :=
  match c with
  | Match _ | OptionalMatch _ => Some FMatchClauses
  | Where _ | AndWhere _ | OrWhere _ => Some FWhereClauses
  | With _ => Some FWithClauses
  | Return _ => Some FReturnClause
  | OrderBy _ => Some FOrderByClause
  | Skip _ => Some FSkipValue
  | Limit _ => Some FLimitValue
  | SetParameter _ _ => Some FParameters
  | Clear | Subquery _ | Union _ | UnionAll _ => None
  end.





(** The check that lets every call through. *)
Definition any_call {V : Type} (c : call V) (this : loc) (h : heap V) : bool :=
  true.

(** The entries of the three buffers. *)
Definition buffer_entries (b : QueryBuilder) : list string :=
  matchClauses b ++ whereClauses b ++ withClauses b.

(** No buffer holds an empty entry. *)
Definition entries_nonempty (b : QueryBuilder) : Prop :=
  Forall (fun f => Boolean f = true) (buffer_entries b).

(** A fragment that starts with [WHERE], [AND] or [OR]. *)
Definition where_token (f : string) : bool :=
  starts_with "WHERE " f || starts_with "AND " f || starts_with "OR " f.

(** A WHERE buffer is empty, or starts with a [WHERE] fragment that only
    [WHERE], [AND] and [OR] fragments follow. *)
Definition where_buffer_shaped (b : QueryBuilder) : Prop :=
  match whereClauses b with
  | [] => True
  | w :: ws =>
      starts_with "WHERE " w = true
      /\ Forall (fun f => where_token f = true) ws
  end.

(** A builder nothing was added to: as constructed, or cleared. *)
Definition nothing_added (b : QueryBuilder) : Prop :=
  matchClauses b = [] /\ whereClauses b = [] /\ withClauses b = []
  /\ returnClause b = EmptyString /\ orderByClause b = EmptyString
  /\ skipValue b = None /\ limitValue b = None.

(** No two builders of the store share a parameter map. *)
Definition own_parameters {V : Type} (h : heap V) : Prop :=
  forall i j bi bj,
    builders h !! i = Some bi -> builders h !! j = Some bj ->
    parameters bi = parameters bj -> i = j.

(** Every builder has a parameter map of its own in the store. *)
Definition parameters_sound {V : Type} (h : heap V) : Prop :=
  well_formed h /\ own_parameters h.

(** What a call on the builder [this], with fields [b] in the store [h],
    may have changed on the way to [h']: nothing of the builders and
    objects that were there, but the fields of [this] and its parameter
    map; the parameter map [this] ends with is the one it had or a new
    one. *)
Definition call_frame {V : Type} (this : loc) (b : QueryBuilder)
    (h h' : heap V) : Prop :=
  (length (builders h) <= length (builders h'))%nat
  /\ (forall other, other <> this -> (other < length (builders h))%nat ->
        builders h' !! other = builders h !! other)
  /\ (length (objects h) <= length (objects h'))%nat
  /\ (forall q, (q < length (objects h))%nat -> q <> parameters b ->
        objects h' !! q = objects h !! q)
  /\ exists b', builders h' !! this = Some b'
                /\ (parameters b' = parameters b
                    \/ (length (objects h) <= parameters b')%nat).

(** The builder handed to [union] or [unionAll] exists. *)
Definition other_exists {V : Type} (c : call V) (this : loc) (h : heap V)
  : bool :=
  match c with
  | Union otherQuery | UnionAll otherQuery =>
      Nat.ltb otherQuery (length (builders h))
  | _ => true
  end.

(** The call [c] on an existing builder of a well-formed store returns the
    builder it is made on. *)
Definition call_returns_this {V : Type} (c : call V) : Prop :=
  forall this (h : heap V),
    well_formed h ->
    (this < length (builders h))%nat ->
    checked_call other_exists c this h = true ->
    exists h', call_on c this h = Some (this, h').


(** A subquery whose callback sets parameters, clears and starts again. *)
Definition busy_call : call Z :=
  Subquery
    [Match "(x)"; SetParameter "year" 1999; Clear; Limit 3;
     Subquery [Where "x.y"]; Union 1%nat].

(** A chain with a subquery and two unions. *)
Definition busy_chain : list (call Z) :=
  [Match "(x)"; busy_call; Union 1%nat; OrWhere "x.z"; UnionAll 0%nat;
   Clear; Skip 0].


(** The text [s] is the decimal numeral of [n]: it reads as a numeral in
    normal form (no sign or a minus sign, no leading zero) whose value is
    [n]. *)
Definition decimal_numeral (s : string) (n : Z) : Prop :=
  exists d : Decimal.signed_int,
    NilZero.int_of_string s = Some d
    /\ Decimal.norm d = d
    /\ Z.of_int d = n.



Section Vocabulary.

Context {V : Type}.

(** A method that only assigns fields of [this] and returns [this]. *)
Definition update_fields (f : QueryBuilder -> QueryBuilder) (this : loc)
    (h : heap V) : option (loc * heap V) :=
  match builders h !! this with
  | Some b => Some (this, mkHeap (<[this := f b]> (builders h)) (objects h))
  | None => None
  end.

(** The subquery scenario of the test suite. *)
Definition subquery_scenario : M V string :=
  builder <- new_QueryBuilder ;;
  builder <- match_ builder "(p:Person)" ;;
  builder <- where_ builder "p.age > 18" ;;
  builder <-
    subquery builder
      (fun subBuilder =>
         subBuilder <- match_ subBuilder "(p)-[:OWNS]->(c:Car)" ;;
         return_ subBuilder "count(c) AS carCount" ;;;
         ret tt) ;;
  builder <- return_ builder "p, carCount" ;;
  build builder.

(** What [union] (keyword [UNION]) and [unionAll] (keyword [UNION ALL])
    leave behind: [this] holds the one entry and nothing else; its
    parameter map has the content [o] that the other builder's map had when
    the other builder is another object, and is empty when the builder is
    united with itself. *)
Definition union_postcondition (keyword : string) (this otherQuery : loc)
    (A B : QueryBuilder) (o : gmap string V)
    (result : option (loc * heap V)) : Prop :=
  exists (h' : heap V) (A' : QueryBuilder),
    result = Some (this, h')
    /\ builders h' !! this = Some A'
    /\ matchClauses A'
       = [render A +:+ nl +:+ keyword +:+ nl +:+ render B]
    /\ whereClauses A' = [] /\ withClauses A' = []
    /\ returnClause A' = "" /\ orderByClause A' = ""
    /\ skipValue A' = None /\ limitValue A' = None
    /\ (this <> otherQuery -> objects h' !! parameters A' = Some o)
    /\ (this = otherQuery -> objects h' !! parameters A' = Some ∅).

(** What [union] and [unionAll] leave of another builder: its fields and
    the content of its parameter map. *)
Definition union_frame (otherQuery : loc) (B : QueryBuilder)
    (o : gmap string V) (this : loc)
    (result : option (loc * heap V)) : Prop :=
  exists h' : heap V,
    result = Some (this, h')
    /\ builders h' !! otherQuery = Some B
    /\ objects h' !! parameters B = Some o.

End Vocabulary.

(** ** Reasoning about computations *)

Section MonadLaws.

Context {V : Type}.

Lemma bind_Some {A B : Type} (m : M V A) (k : A -> M V B) h r h' :
  bind m k h = Some (r, h') <->
  exists a h1, m h = Some (a, h1) /\ k a h1 = Some (r, h').
Proof.
  unfold bind. split.
  - destruct (m h) as [[a h1]|]; [|discriminate]. intros Hk. eauto.
  - intros (a & h1 & -> & Hk). exact Hk.
Qed.

Lemma bind_eq {A B : Type} (m : M V A) (k : A -> M V B) h a h1 :
  m h = Some (a, h1) -> bind m k h = k a h1.
Proof. unfold bind. intros ->. reflexivity. Qed.

Lemma get_fields_eq this (h : heap V) b :
  builders h !! this = Some b -> get_fields this h = Some (b, h).
Proof. unfold get_fields. intros ->. reflexivity. Qed.

Lemma get_fields_Some this (h : heap V) b h' :
  get_fields this h = Some (b, h') <-> builders h !! this = Some b /\ h' = h.
Proof.
  unfold get_fields. destruct (builders h !! this) eqn:E; split.
  - intros [= -> ->]. auto.
  - intros [[= ->] ->]. reflexivity.
  - discriminate.
  - intros [[=] _].
Qed.

Lemma put_fields_eq this (h : heap V) b0 b :
  builders h !! this = Some b0 ->
  put_fields this b h = Some (tt, mkHeap (<[this := b]> (builders h)) (objects h)).
Proof. unfold put_fields. intros ->. reflexivity. Qed.

Lemma put_fields_Some this (h : heap V) b u h' :
  put_fields this b h = Some (u, h') <->
  is_Some (builders h !! this) /\
  h' = mkHeap (<[this := b]> (builders h)) (objects h).
Proof.
  unfold put_fields. destruct (builders h !! this) eqn:E; split.
  - intros [= <-]. eauto.
  - intros [_ ->]. destruct u. reflexivity.
  - discriminate.
  - intros [[? [=]] _].
Qed.

Lemma read_object_eq p (h : heap V) o :
  objects h !! p = Some o -> read_object p h = Some (o, h).
Proof. unfold read_object. intros ->. reflexivity. Qed.

Lemma read_object_Some p (h : heap V) o h' :
  read_object p h = Some (o, h') <-> objects h !! p = Some o /\ h' = h.
Proof.
  unfold read_object. destruct (objects h !! p) eqn:E; split.
  - intros [= -> ->]. auto.
  - intros [[= ->] ->]. reflexivity.
  - discriminate.
  - intros [[=] _].
Qed.

Lemma write_object_eq p (h : heap V) o0 o :
  objects h !! p = Some o0 ->
  write_object p o h = Some (tt, mkHeap (builders h) (<[p := o]> (objects h))).
Proof. unfold write_object. intros ->. reflexivity. Qed.

Lemma write_object_Some p (h : heap V) o u h' :
  write_object p o h = Some (u, h') <->
  is_Some (objects h !! p) /\
  h' = mkHeap (builders h) (<[p := o]> (objects h)).
Proof.
  unfold write_object. destruct (objects h !! p) eqn:E; split.
  - intros [= <-]. eauto.
  - intros [_ ->]. destruct u. reflexivity.
  - discriminate.
  - intros [[? [=]] _].
Qed.

Lemma call_on_Subquery callback this :
  call_on (Subquery callback) this
  = subquery (V := V) this (fun subBuilder => chain_on callback subBuilder).
Proof. reflexivity. Qed.

Lemma chain_on_nil this : chain_on (V := V) [] this = ret tt.
Proof. reflexivity. Qed.

Lemma chain_on_cons c cs this :
  chain_on (V := V) (c :: cs) this = (call_on c this ;;; chain_on cs this).
Proof. reflexivity. Qed.

End MonadLaws.

(** ** Arrays that grow at the end *)

Section Snoc.

Context {A : Type}.

Lemma lookup_snoc (l : list A) x : (l ++ [x]) !! length l = Some x.
Proof. apply list_lookup_middle. reflexivity. Qed.

Lemma lookup_snoc2_fst (l : list A) x y : (l ++ [x; y]) !! length l = Some x.
Proof. apply list_lookup_middle. reflexivity. Qed.

Lemma lookup_snoc2_snd (l : list A) x y :
  (l ++ [x; y]) !! S (length l) = Some y.
Proof.
  change (l ++ [x; y]) with (l ++ [x] ++ [y]). rewrite app_assoc.
  apply list_lookup_middle. rewrite length_app. simpl. lia.
Qed.

Lemma insert_snoc2_fst (l : list A) x y z :
  <[length l := z]> (l ++ [x; y]) = l ++ [z; y].
Proof.
  rewrite insert_app_r_alt by lia. rewrite Nat.sub_diag. reflexivity.
Qed.

End Snoc.

(** ** What each method does to the store *)

Section MethodEquations.

Context {V : Type}.

Ltac run_method :=
  intros;
  repeat (unfold bind, get_fields, put_fields, read_object, write_object,
            new_object, ret, update_fields; simpl);
  repeat match goal with
    | |- context [builders ?h !! ?l] =>
        let E := fresh "E" in
        destruct (builders h !! l) eqn:E; simpl; rewrite ?E; simpl
    | |- context [objects ?h !! ?l] =>
        let E := fresh "E" in
        destruct (objects h !! l) eqn:E; simpl; rewrite ?E; simpl
    end;
  try reflexivity.

Lemma match_run this pattern (h : heap V) :
  match_ this pattern h
  = update_fields
      (fun b => set_matchClauses (matchClauses b ++ ["MATCH " +:+ pattern]) b)
      this h.
Proof. unfold match_. run_method. Qed.

Lemma optionalMatch_run this pattern (h : heap V) :
  optionalMatch this pattern h
  = update_fields
      (fun b => set_matchClauses
                  (matchClauses b ++ ["OPTIONAL MATCH " +:+ pattern]) b)
      this h.
Proof. unfold optionalMatch. run_method. Qed.

Lemma where_run this condition (h : heap V) :
  where_ this condition h
  = update_fields
      (fun b => set_whereClauses (whereClauses b ++ ["WHERE " +:+ condition]) b)
      this h.
Proof. unfold where_. run_method. Qed.

Lemma andWhere_run this condition (h : heap V) :
  andWhere this condition h
  = update_fields
      (fun b =>
         if Nat.eqb (length (whereClauses b)) 0
         then set_whereClauses (whereClauses b ++ ["WHERE " +:+ condition]) b
         else set_whereClauses (whereClauses b ++ ["AND " +:+ condition]) b)
      this h.
Proof.
  unfold andWhere, update_fields, bind at 1, get_fields at 1.
  destruct (builders h !! this) as [b|] eqn:E; [|reflexivity].
  destruct (Nat.eqb (length (whereClauses b)) 0).
  - rewrite where_run. unfold update_fields. rewrite E. reflexivity.
  - unfold bind, put_fields, ret. rewrite E. reflexivity.
Qed.

Lemma orWhere_run this condition (h : heap V) :
  orWhere this condition h
  = update_fields
      (fun b =>
         if Nat.eqb (length (whereClauses b)) 0
         then set_whereClauses (whereClauses b ++ ["WHERE " +:+ condition]) b
         else set_whereClauses (whereClauses b ++ ["OR " +:+ condition]) b)
      this h.
Proof.
  unfold orWhere, update_fields, bind at 1, get_fields at 1.
  destruct (builders h !! this) as [b|] eqn:E; [|reflexivity].
  destruct (Nat.eqb (length (whereClauses b)) 0).
  - rewrite where_run. unfold update_fields. rewrite E. reflexivity.
  - unfold bind, put_fields, ret. rewrite E. reflexivity.
Qed.

Lemma with_run this expression (h : heap V) :
  with_ this expression h
  = update_fields
      (fun b => set_withClauses (withClauses b ++ ["WITH " +:+ expression]) b)
      this h.
Proof. unfold with_. run_method. Qed.

Lemma return_run this expression (h : heap V) :
  return_ this expression h
  = update_fields (set_returnClause ("RETURN " +:+ expression)) this h.
Proof. unfold return_. run_method. Qed.

Lemma orderBy_run this expression (h : heap V) :
  orderBy this expression h
  = update_fields (set_orderByClause ("ORDER BY " +:+ expression)) this h.
Proof. unfold orderBy. run_method. Qed.

Lemma skip_run this count (h : heap V) :
  skip this count h = update_fields (set_skipValue (Some count)) this h.
Proof. unfold skip. run_method. Qed.

Lemma limit_run this count (h : heap V) :
  limit this count h = update_fields (set_limitValue (Some count)) this h.
Proof. unfold limit. run_method. Qed.

Lemma build_run this (h : heap V) :
  build this h
  = match builders h !! this with
    | Some b => Some (render b, h)
    | None => None
    end.
Proof. unfold build. run_method. Qed.

Lemma setParameter_run this name value (h : heap V) :
  setParameter this name value h
  = match builders h !! this with
    | Some b =>
        match objects h !! parameters b with
        | Some o =>
            Some (this,
                  mkHeap (builders h)
                    (<[parameters b := assign_property name value o]>
                       (objects h)))
        | None => None
        end
    | None => None
    end.
Proof. unfold setParameter. run_method. Qed.

Lemma getParameters_run this (h : heap V) :
  getParameters this h
  = match builders h !! this with
    | Some b =>
        match objects h !! parameters b with
        | Some o =>
            Some (length (objects h), mkHeap (builders h) (objects h ++ [o]))
        | None => None
        end
    | None => None
    end.
Proof. unfold getParameters. run_method. Qed.

Lemma clear_run this (h : heap V) :
  clear this h
  = match builders h !! this with
    | Some _ =>
        Some (this,
              mkHeap (<[this := empty_fields (length (objects h))]> (builders h))
                (objects h ++ [∅]))
    | None => None
    end.
Proof. unfold clear. run_method. Qed.

Lemma new_QueryBuilder_run (h : heap V) :
  new_QueryBuilder h
  = Some (length (builders h),
          mkHeap (builders h ++ [empty_fields (length (objects h))])
            (objects h ++ [∅])).
Proof. reflexivity. Qed.

End MethodEquations.

(** ** The composition methods *)

Section Composition.

Context {V : Type}.

Lemma Object_assign_run target source (h : heap V) t s :
  objects h !! target = Some t ->
  objects h !! source = Some s ->
  Object_assign target source h
  = Some (tt, mkHeap (builders h) (<[target := s ∪ t]> (objects h))).
Proof.
  intros Ht Hs. unfold Object_assign.
  rewrite (bind_eq _ _ _ _ _ (read_object_eq _ _ _ Ht)).
  rewrite (bind_eq _ _ _ _ _ (read_object_eq _ _ _ Hs)).
  apply (write_object_eq _ _ t). exact Ht.
Qed.

(** The common body of [union] and [unionAll], after the two [build]s. *)
Lemma union_tail_run keyword this otherQuery (h : heap V) A B o :
  builders h !! this = Some A ->
  builders h !! otherQuery = Some B ->
  objects h !! parameters B = Some o ->
  (clear this ;;;
   b <- get_fields this ;;
   put_fields this
     (set_matchClauses
        (matchClauses b ++ [union_entry keyword (render A) (render B)]) b) ;;;
   b <- get_fields this ;;
   source <- getParameters otherQuery ;;
   Object_assign (parameters b) source ;;;
   ret this) h
  = let o' := if decide (this = otherQuery) then ∅ else o in
    Some (this,
          mkHeap
            (<[this := union_fields keyword A B (length (objects h))]>
               (builders h))
            (objects h ++ [o'; o'])).
Proof.
  intros HA HB Ho.
  pose proof (lookup_lt_Some _ _ _ HA) as Hlt.
  pose proof (lookup_lt_Some _ _ _ Ho) as Hlto.
  erewrite bind_eq by (rewrite clear_run, HA; reflexivity).
  erewrite bind_eq
    by (apply get_fields_eq; simpl; apply list_lookup_insert_eq; exact Hlt).
  erewrite bind_eq
    by (eapply put_fields_eq; simpl; apply list_lookup_insert_eq; exact Hlt).
  simpl. rewrite list_insert_insert_eq.
  erewrite bind_eq
    by (apply get_fields_eq; simpl; apply list_lookup_insert_eq; exact Hlt).
  simpl.
  destruct (decide (this = otherQuery)) as [<-|Hne].
  - erewrite bind_eq.
    2:{ rewrite getParameters_run. cbn [builders objects].
        rewrite list_lookup_insert_eq by exact Hlt.
        cbn [parameters union_fields set_matchClauses empty_fields].
        rewrite lookup_snoc. reflexivity. }
    rewrite <- app_assoc. simpl.
    erewrite bind_eq.
    2:{ rewrite length_app. simpl. rewrite Nat.add_1_r.
        apply (Object_assign_run _ _ _ ∅ ∅); simpl.
        - apply lookup_snoc2_fst.
        - apply lookup_snoc2_snd. }
    unfold ret. simpl. rewrite insert_snoc2_fst.
    rewrite (left_id_L ∅ (∪)). reflexivity.
  - erewrite bind_eq.
    2:{ rewrite getParameters_run. cbn [builders objects].
        rewrite list_lookup_insert_ne by exact Hne. rewrite HB.
        rewrite lookup_app_l by exact Hlto. rewrite Ho. reflexivity. }
    rewrite <- app_assoc. simpl.
    erewrite bind_eq.
    2:{ rewrite length_app. simpl. rewrite Nat.add_1_r.
        apply (Object_assign_run _ _ _ ∅ o); simpl.
        - apply lookup_snoc2_fst.
        - apply lookup_snoc2_snd. }
    unfold ret. simpl. rewrite insert_snoc2_fst.
    rewrite (right_id_L ∅ (∪)). reflexivity.
Qed.

End Composition.

Section UnionRun.

Context {V : Type}.

Lemma union_run this otherQuery (h : heap V) A B o :
  builders h !! this = Some A ->
  builders h !! otherQuery = Some B ->
  objects h !! parameters B = Some o ->
  union this otherQuery h
  = let o' := if decide (this = otherQuery) then ∅ else o in
    Some (this,
          mkHeap
            (<[this := union_fields "UNION" A B (length (objects h))]>
               (builders h))
            (objects h ++ [o'; o'])).
Proof.
  intros HA HB Ho. unfold union.
  erewrite bind_eq by (rewrite build_run, HA; reflexivity).
  erewrite bind_eq by (rewrite build_run, HB; reflexivity).
  exact (union_tail_run "UNION" this otherQuery h A B o HA HB Ho).
Qed.

Lemma unionAll_run this otherQuery (h : heap V) A B o :
  builders h !! this = Some A ->
  builders h !! otherQuery = Some B ->
  objects h !! parameters B = Some o ->
  unionAll this otherQuery h
  = let o' := if decide (this = otherQuery) then ∅ else o in
    Some (this,
          mkHeap
            (<[this := union_fields "UNION ALL" A B (length (objects h))]>
               (builders h))
            (objects h ++ [o'; o'])).
Proof.
  intros HA HB Ho. unfold unionAll.
  erewrite bind_eq by (rewrite build_run, HA; reflexivity).
  erewrite bind_eq by (rewrite build_run, HB; reflexivity).
  exact (union_tail_run "UNION ALL" this otherQuery h A B o HA HB Ho).
Qed.

End UnionRun.

(** ** Texts, lines and joins *)

Lemma lines_nonempty s : lines s <> [].
Proof.
  destruct s as [|c s]; simpl; [discriminate|].
  destruct (Ascii.eqb c LF); [discriminate|].
  destruct (lines s); discriminate.
Qed.

Lemma has_newline_app a b :
  has_newline (a +:+ b) = has_newline a || has_newline b.
Proof.
  induction a as [|c a IH]; simpl; [reflexivity|].
  rewrite IH. apply orb_assoc.
Qed.

Lemma lines_no_newline s : has_newline s = false -> lines s = [s].
Proof.
  induction s as [|c s IH]; simpl; [reflexivity|].
  intros H. apply orb_false_iff in H as [Hc Hs].
  rewrite Hc, (IH Hs). reflexivity.
Qed.

Lemma lines_app_nl a b : lines (a +:+ nl +:+ b) = lines a ++ lines b.
Proof.
  induction a as [|c a IH]; simpl; [reflexivity|].
  rewrite IH. destruct (Ascii.eqb c LF); [reflexivity|].
  pose proof (lines_nonempty a) as Hne.
  destruct (lines a); [contradiction|reflexivity].
Qed.

Lemma join_cons sep x y ys :
  join sep (x :: y :: ys) = x +:+ sep +:+ join sep (y :: ys).
Proof. reflexivity. Qed.

Lemma lines_join parts :
  parts <> [] -> lines (join nl parts) = flat_map lines parts.
Proof.
  induction parts as [|x [|y ys] IH]; intros Hne; [contradiction| |].
  - simpl. rewrite app_nil_r. reflexivity.
  - rewrite join_cons, lines_app_nl, IH by discriminate. reflexivity.
Qed.

Lemma In_lines_join parts f l :
  In f parts -> In l (lines f) -> In l (lines (join nl parts)).
Proof.
  intros Hf Hl. rewrite lines_join by (intros ->; contradiction).
  apply in_flat_map. eauto.
Qed.


Lemma string_of_uint_no_newline d :
  has_newline (NilZero.string_of_uint d) = false.
Proof.
  assert (H : has_newline (NilEmpty.string_of_uint d) = false)
    by (induction d; simpl; auto).
  destruct d; exact H || reflexivity.
Qed.

Lemma number_to_string_no_newline n : has_newline (number_to_string n) = false.
Proof.
  unfold number_to_string, NilZero.string_of_int.
  destruct (Z.to_int n); [|simpl]; apply string_of_uint_no_newline.
Qed.

Lemma number_to_string_nonempty n : number_to_string n <> "".
Proof.
  unfold number_to_string, NilZero.string_of_int.
  destruct (Z.to_int n) as [d|d]; [|discriminate].
  destruct d; discriminate.
Qed.

Lemma ends_with_newline_app a b :
  ends_with_newline (a +:+ b)
  = if Boolean b then ends_with_newline b else ends_with_newline a.
Proof.
  induction a as [|c a IH]; simpl.
  - destruct b; reflexivity.
  - rewrite IH. destruct a as [|c' a']; simpl.
    + destruct b; reflexivity.
    + reflexivity.
Qed.

Lemma ends_with_newline_spec s :
  ends_with_newline s = true <-> exists s', s = s' +:+ nl.
Proof.
  split.
  - induction s as [|c s IH]; simpl; [discriminate|].
    destruct s as [|c' s'].
    + intros H. apply Ascii.eqb_eq in H as ->. exists "". reflexivity.
    + intros H. destruct (IH H) as [t Ht]. exists (String c t).
      rewrite Ht. reflexivity.
  - intros [s' ->]. rewrite ends_with_newline_app. reflexivity.
Qed.

Lemma ends_with_newline_sep x r :
  Boolean r = true ->
  ends_with_newline (x +:+ nl +:+ r) = ends_with_newline r.
Proof.
  intros Hr. rewrite ends_with_newline_app.
  change (Boolean (nl +:+ r)) with true. cbv iota.
  rewrite ends_with_newline_app, Hr. reflexivity.
Qed.

Lemma Boolean_join_cons x xs : Boolean x = true -> Boolean (join nl (x :: xs)) = true.
Proof.
  intros Hx. destruct xs; [exact Hx|].
  rewrite join_cons. destruct x; [discriminate|reflexivity].
Qed.

(** A join of non-empty texts none of which ends with a line feed does not
    end with one. *)
Lemma ends_with_newline_join parts :
  Forall (fun f => Boolean f = true /\ ends_with_newline f = false) parts ->
  ends_with_newline (join nl parts) = false.
Proof.
  induction parts as [|x [|y ys] IH]; intros H.
  - reflexivity.
  - simpl. apply Forall_inv in H. tauto.
  - pose proof (Forall_inv_tail H) as Ht. specialize (IH Ht).
    apply Forall_inv in Ht as [Hy _].
    rewrite join_cons, ends_with_newline_sep; [exact IH|].
    apply Boolean_join_cons, Hy.
Qed.

(** ** The subquery scenario *)

(** C2.  On a fresh builder, [match('(p:Person)')], [where('p.age > 18')],
    a subquery matching [(p)-[:OWNS]->(c:Car)] and returning
    [count(c) AS carCount], then [return('p, carCount')]: [build] returns
    the text below.  The sub-builder's fragment keeps its [MATCH] keyword,
    and the parenthesised entry sits in the match buffer, hence before the
    [WHERE] line; this is not the text the test suite expects. *)
Theorem subquery_scenario_text :
  forall V : Type,
    option_map fst (subquery_scenario (V := V) empty_heap)
    = Some ("MATCH (p:Person)" +:+ nl
            +:+ "(MATCH (p)-[:OWNS]->(c:Car)" +:+ nl
            +:+ "RETURN count(c) AS carCount)" +:+ nl
            +:+ "WHERE p.age > 18" +:+ nl
            +:+ "RETURN p, carCount")
    /\ option_map fst (subquery_scenario (V := V) empty_heap)
       <> Some ("MATCH (p:Person)" +:+ nl
                +:+ "WHERE p.age > 18" +:+ nl
                +:+ "((p)-[:OWNS]->(c:Car)" +:+ nl
                +:+ "RETURN count(c) AS carCount)" +:+ nl
                +:+ "RETURN p, carCount").
Proof.
  intros V. split.
  - vm_compute. reflexivity.
  - vm_compute. discriminate.
Qed.

(** ** Conditional WHERE combinators *)


(** ** Rendering reads and nothing else *)

(** C7.  [build] returns its text and leaves the store as it found it, so
    no field of any builder changes; two [build]s in a row return the same
    text. *)
Theorem build_pure :
  forall (V : Type) (h : heap V) (this : loc) (b : QueryBuilder),
    builders h !! this = Some b ->
    build this h = Some (render b, h)
    /\ (first <- build this ;; second <- build this ;; ret (first, second)) h
       = Some ((render b, render b), h).
Proof.
  intros V h this b Hb.
  assert (E : build this h = Some (render b, h))
    by (rewrite build_run, Hb; reflexivity).
  split; [exact E|].
  rewrite (bind_eq _ _ _ _ _ E), (bind_eq _ _ _ _ _ E). reflexivity.
Qed.

(** ** Union and union-all *)

Lemma union_postcondition_intro {V : Type} keyword this otherQuery
    (h : heap V) A B o :
  builders h !! this = Some A ->
  union_postcondition keyword this otherQuery A B o
    (let o' := if decide (this = otherQuery) then ∅ else o in
     Some (this,
           mkHeap
             (<[this := union_fields keyword A B (length (objects h))]>
                (builders h))
             (objects h ++ [o'; o']))).
Proof.
  intros HA. pose proof (lookup_lt_Some _ _ _ HA) as Hlt.
  eexists _, _. split; [reflexivity|]. cbn [builders objects].
  split; [apply list_lookup_insert_eq; exact Hlt|].
  cbn [union_fields matchClauses whereClauses withClauses returnClause
         orderByClause skipValue limitValue parameters].
  repeat (split; [reflexivity|]).
  split.
  - intros Hne. rewrite decide_False by exact Hne. apply lookup_snoc2_fst.
  - intros Heq. rewrite decide_True by exact Heq. apply lookup_snoc2_fst.
Qed.

(** C3, as the code has it.  [A.union(B)] renders A, renders B, and leaves
    A with every buffer, slot and pagination value reset but for the single
    match-buffer entry [<A-rendered>\nUNION\n<B-rendered>].  When B is
    another builder than A, A's parameter map then has the content B's map
    had at the call; in [A.union(A)] the parameters are read after the
    reset, and A's parameter map is left empty.  The same holds of
    [unionAll] with [UNION ALL]. *)
Theorem union_spec :
  forall (V : Type) (h : heap V) (this otherQuery : loc)
         (A B : QueryBuilder) (o : gmap string V),
    builders h !! this = Some A ->
    builders h !! otherQuery = Some B ->
    objects h !! parameters B = Some o ->
    union_postcondition "UNION" this otherQuery A B o
      (union this otherQuery h)
    /\ union_postcondition "UNION ALL" this otherQuery A B o
         (unionAll this otherQuery h).
Proof.
  intros V h this otherQuery A B o HA HB Ho.
  rewrite (union_run _ _ _ _ _ _ HA HB Ho).
  rewrite (unionAll_run _ _ _ _ _ _ HA HB Ho).
  split; apply union_postcondition_intro; exact HA.
Qed.

Lemma union_frame_intro {V : Type} keyword this otherQuery
    (h : heap V) A B o :
  this <> otherQuery ->
  builders h !! otherQuery = Some B ->
  objects h !! parameters B = Some o ->
  union_frame otherQuery B o this
    (let o' := if decide (this = otherQuery) then ∅ else o in
     Some (this,
           mkHeap
             (<[this := union_fields keyword A B (length (objects h))]>
                (builders h))
             (objects h ++ [o'; o']))).
Proof.
  intros Hne HB Ho. eexists. split; [reflexivity|]. cbn [builders objects].
  split.
  - rewrite list_lookup_insert_ne by exact Hne. exact HB.
  - apply lookup_app_l_Some. exact Ho.
Qed.

(** C6, as the code has it.  For a builder B other than A, [A.union(B)]
    and [A.unionAll(B)] leave B as it was: its buffers, slots, pagination
    values and the content of its parameter map. *)
Theorem union_leaves_other_untouched :
  forall (V : Type) (h : heap V) (this otherQuery : loc)
         (A B : QueryBuilder) (o : gmap string V),
    this <> otherQuery ->
    builders h !! this = Some A ->
    builders h !! otherQuery = Some B ->
    objects h !! parameters B = Some o ->
    union_frame otherQuery B o this (union this otherQuery h)
    /\ union_frame otherQuery B o this (unionAll this otherQuery h).
Proof.
  intros V h this otherQuery A B o Hne HA HB Ho.
  rewrite (union_run _ _ _ _ _ _ HA HB Ho).
  rewrite (unionAll_run _ _ _ _ _ _ HA HB Ho).
  split; apply union_frame_intro; assumption.
Qed.

(** C3, counterexample.  In [A.union(A)], A holding the parameter
    [minAge], the map of A at the time of the call binds [minAge], and the
    map of A afterwards is empty. *)
Lemma union_self_loses_parameters :
  exists (h' : heap Z) (A' : QueryBuilder),
    builders two_builders !! 0%nat = Some person_fields
    /\ objects two_builders !! parameters person_fields
       = Some person_parameters
    /\ person_parameters !! "minAge" = Some 18
    /\ union 0%nat 0%nat two_builders = Some (0%nat, h')
    /\ builders h' !! 0%nat = Some A'
    /\ objects h' !! parameters A' = Some ∅
    /\ objects h' !! parameters A' <> Some person_parameters.
Proof.
  eexists _, _.
  split; [reflexivity|]. split; [reflexivity|]. split; [reflexivity|].
  split; [vm_compute; reflexivity|].
  split; [reflexivity|]. split; [reflexivity|].
  intros H. apply (f_equal (fun m => m ≫= (.!! "minAge"))) in H.
  vm_compute in H. discriminate H.
Qed.

(** C6, counterexample.  In [A.union(A)] the builder handed over is A
    itself, and it does not stay as it was: its buffers are replaced by the
    single entry and its RETURN slot is emptied. *)
Lemma union_self_changes_other :
  exists (h' : heap Z) (B' : QueryBuilder),
    builders two_builders !! 0%nat = Some person_fields
    /\ union 0%nat 0%nat two_builders = Some (0%nat, h')
    /\ builders h' !! 0%nat = Some B'
    /\ returnClause person_fields = "RETURN p.name AS item"
    /\ returnClause B' = EmptyString
    /\ B' <> person_fields
    /\ ~ union_frame 0%nat person_fields person_parameters 0%nat
          (union 0%nat 0%nat two_builders).
Proof.
  eexists _, _.
  split; [reflexivity|]. split; [vm_compute; reflexivity|].
  split; [reflexivity|]. split; [reflexivity|]. split; [reflexivity|].
  split; [discriminate|].
  intros (h' & Hrun & Hfields & _).
  vm_compute in Hrun. injection Hrun as <-.
  vm_compute in Hfields. discriminate Hfields.
Qed.

(** ** The parameter accessor *)

(** C8.  [getParameters] returns a new object with the content of the
    builder's parameter map.  Whatever is then written to that object,
    a later [getParameters] still yields the original content and [build]
    still returns the same text. *)
Theorem getParameters_copy :
  forall (V : Type) (h : heap V) (this : loc) (b : QueryBuilder)
         (o : gmap string V),
    builders h !! this = Some b ->
    objects h !! parameters b = Some o ->
    exists (r : loc) (h' : heap V),
      getParameters this h = Some (r, h')
      /\ objects h' !! r = Some o
      /\ r <> parameters b
      /\ objects h !! r = None
      /\ builders h' = builders h
      /\ forall (o' : gmap string V) (h'' : heap V),
           write_object r o' h' = Some (tt, h'') ->
           (exists (r2 : loc) (h3 : heap V),
              getParameters this h'' = Some (r2, h3)
              /\ objects h3 !! r2 = Some o)
           /\ build this h'' = Some (render b, h'')
           /\ build this h = Some (render b, h).
Proof.
  intros V h this b o Hb Ho.
  pose proof (lookup_lt_Some _ _ _ Ho) as Hlt.
  exists (length (objects h)), (mkHeap (builders h) (objects h ++ [o])).
  split; [rewrite getParameters_run, Hb, Ho; reflexivity|].
  cbn [objects builders].
  split; [apply lookup_snoc|].
  split; [lia|].
  split; [apply lookup_ge_None; lia|].
  split; [reflexivity|].
  intros o' h'' Hw.
  rewrite (write_object_eq _ _ o) in Hw by apply lookup_snoc.
  injection Hw as <-. cbn [objects builders].
  rewrite insert_app_r_alt, Nat.sub_diag by lia. cbn [insert list_insert].
  split; [|split].
  - eexists _, _. rewrite getParameters_run. cbn [objects builders].
    rewrite Hb, (lookup_app_l_Some _ _ _ _ Ho).
    split; [reflexivity|]. cbn [objects]. apply lookup_snoc.
  - rewrite build_run. cbn [builders]. rewrite Hb. reflexivity.
  - rewrite build_run, Hb. reflexivity.
Qed.

(** ** Rendering *)

Lemma build_parts_split b :
  build_parts b = stored_fragments b ++ pagination_parts b.
Proof.
  unfold build_parts, stored_fragments, pagination_parts, skip_line, limit_line.
  destruct (skipValue b), (limitValue b); simpl;
    rewrite <- ?app_assoc; simpl; rewrite ?app_nil_r; reflexivity.
Qed.

Lemma skip_line_no_newline n : has_newline (skip_line n) = false.
Proof.
  unfold skip_line. rewrite has_newline_app, number_to_string_no_newline.
  reflexivity.
Qed.

Lemma limit_line_no_newline n : has_newline (limit_line n) = false.
Proof.
  unfold limit_line. rewrite has_newline_app, number_to_string_no_newline.
  reflexivity.
Qed.

(** A non-empty element of [parts] with no line feed is a line of the text. *)
Lemma render_has_line b f :
  In f (build_parts b) -> Boolean f = true -> has_newline f = false ->
  In f (lines (render b)).
Proof.
  intros Hin Hne Hnl. unfold render.
  apply (In_lines_join _ f).
  - apply filter_In. auto.
  - rewrite (lines_no_newline _ Hnl). left. reflexivity.
Qed.

(** ** An empty subquery *)

Lemma subquery_noop_run {V : Type} (h : heap V) this b o callback :
  (forall subBuilder h0, callback subBuilder h0 = Some (tt, h0)) ->
  builders h !! this = Some b ->
  objects h !! parameters b = Some o ->
  subquery this callback h
  = Some (this,
          mkHeap
            (<[this := set_matchClauses (matchClauses b ++ ["()"]) b]>
               (builders h ++ [empty_fields (length (objects h))]))
            (objects h ++ [∅; ∅])).
Proof.
  intros Hcb Hb Ho.
  pose proof (lookup_lt_Some _ _ _ Hb) as Hlt.
  pose proof (lookup_lt_Some _ _ _ Ho) as Hlto.
  assert (Hlt' : (this < length (builders h ++ [empty_fields (length (objects h))]))%nat)
    by (rewrite length_app; simpl; lia).
  unfold subquery.
  erewrite bind_eq by apply new_QueryBuilder_run.
  erewrite bind_eq by apply Hcb.
  erewrite bind_eq
    by (rewrite build_run; cbn [builders]; rewrite lookup_snoc; reflexivity).
  erewrite bind_eq
    by (apply get_fields_eq; cbn [builders]; apply lookup_app_l_Some, Hb).
  erewrite bind_eq
    by (eapply put_fields_eq; cbn [builders]; apply lookup_app_l_Some, Hb).
  cbn [builders objects].
  erewrite bind_eq
    by (apply get_fields_eq; cbn [builders];
        apply list_lookup_insert_eq; exact Hlt').
  erewrite bind_eq.
  2:{ rewrite getParameters_run. cbn [builders objects].
      rewrite list_lookup_insert_ne by lia. rewrite lookup_snoc.
      cbn [parameters empty_fields]. rewrite lookup_snoc. reflexivity. }
  rewrite <- app_assoc. cbn [app].
  erewrite bind_eq.
  2:{ rewrite length_app. cbn [length]. rewrite Nat.add_1_r.
      apply (Object_assign_run _ _ _ o ∅); cbn [objects parameters set_matchClauses].
      - apply lookup_app_l_Some, Ho.
      - apply lookup_snoc2_snd. }
  unfold ret. cbn [builders objects parameters set_matchClauses].
  rewrite (left_id_L ∅ (∪)).
  rewrite (list_insert_id (objects h ++ [∅; ∅]) (parameters b) o)
    by (apply lookup_app_l_Some, Ho).
  reflexivity.
Qed.

(** C10.  A subquery whose callback does nothing still appends the entry
    [()] to the match buffer of [this], and the text [build] then returns
    has a line [()]. *)
Theorem empty_subquery_adds_parentheses :
  forall (V : Type) (h : heap V) (this : loc) (b : QueryBuilder)
         (o : gmap string V) (callback : loc -> M V unit),
    (forall subBuilder h0, callback subBuilder h0 = Some (tt, h0)) ->
    builders h !! this = Some b ->
    objects h !! parameters b = Some o ->
    exists h' : heap V,
      subquery this callback h = Some (this, h')
      /\ builders h' !! this
         = Some (set_matchClauses (matchClauses b ++ ["()"]) b)
      /\ exists text : string,
           build this h' = Some (text, h') /\ In "()" (lines text).
Proof.
  intros V h this b o callback Hcb Hb Ho.
  pose proof (lookup_lt_Some _ _ _ Hb) as Hlt.
  eexists. split; [apply (subquery_noop_run h this b o); assumption|].
  assert (E : <[this := set_matchClauses (matchClauses b ++ ["()"]) b]>
                (builders h ++ [empty_fields (length (objects h))]) !! this
              = Some (set_matchClauses (matchClauses b ++ ["()"]) b)).
  { apply list_lookup_insert_eq. rewrite length_app. simpl. lia. }
  split; [exact E|].
  eexists. rewrite build_run. cbn [builders]. rewrite E.
  split; [reflexivity|].
  apply render_has_line; try reflexivity.
  rewrite build_parts_split. apply in_or_app. left.
  unfold stored_fragments. cbn [matchClauses set_matchClauses].
  apply in_or_app. left. apply in_or_app. right. left. reflexivity.
Qed.

(** ** Chains of clause-adding calls *)

Lemma update_fields_eq {V : Type} f this (h : heap V) b :
  builders h !! this = Some b ->
  update_fields f this h
  = Some (this, mkHeap (<[this := f b]> (builders h)) (objects h)).
Proof. unfold update_fields. intros ->. reflexivity. Qed.

Lemma clause_adding_run {V : Type} (c : call V) this (h : heap V) b :
  clause_adding c = true ->
  builders h !! this = Some b ->
  call_on c this h
  = Some (this, mkHeap (<[this := add_fragments [c] b]> (builders h)) (objects h)).
Proof.
  intros Hc Hb. destruct c; try discriminate Hc; cbn [call_on];
    rewrite ?match_run, ?optionalMatch_run, ?where_run, ?with_run;
    rewrite (update_fields_eq _ _ _ _ Hb); unfold add_fragments;
    cbn [flat_map match_fragment where_fragment with_fragment app];
    rewrite ?app_nil_r; reflexivity.
Qed.

Lemma add_fragments_cons {V : Type} (c : call V) cs b :
  add_fragments cs (add_fragments [c] b) = add_fragments (c :: cs) b.
Proof.
  unfold add_fragments.
  cbn [matchClauses whereClauses withClauses returnClause orderByClause
         skipValue limitValue parameters flat_map].
  rewrite !app_nil_r, <- !app_assoc. reflexivity.
Qed.

Lemma clause_adding_chain_run {V : Type} (cs : list (call V)) :
  forall this (h : heap V) b,
    forallb clause_adding cs = true ->
    builders h !! this = Some b ->
    chain_on cs this h
    = Some (tt, mkHeap (<[this := add_fragments cs b]> (builders h)) (objects h)).
Proof.
  induction cs as [|c cs IH]; intros this h b Hcs Hb.
  - rewrite chain_on_nil. unfold ret, add_fragments. cbn [flat_map].
    rewrite !app_nil_r. destruct h as [bs os], b. cbn [builders objects] in *.
    rewrite list_insert_id by exact Hb. reflexivity.
  - apply andb_prop in Hcs as [Hc Hcs]. rewrite chain_on_cons.
    rewrite (bind_eq _ _ _ _ _ (clause_adding_run c this h b Hc Hb)).
    rewrite (IH this _ (add_fragments [c] b) Hcs)
      by (apply list_lookup_insert_eq; eapply lookup_lt_Some; exact Hb).
    cbn [builders objects].
    rewrite list_insert_insert_eq, add_fragments_cons. reflexivity.
Qed.

Lemma fragments_nonempty {V : Type} (cs : list (call V)) :
  Forall (fun f => Boolean f = true)
    (flat_map match_fragment cs ++ flat_map where_fragment cs
       ++ flat_map with_fragment cs).
Proof.
  rewrite !Forall_app. repeat split; apply Forall_flat_map, List.Forall_forall;
    intros c _; destruct c; repeat constructor.
Qed.

Lemma filter_Boolean_id l :
  Forall (fun f => Boolean f = true) l -> List.filter Boolean l = l.
Proof.
  induction 1 as [|x l Hx _ IH]; simpl; [reflexivity|].
  rewrite Hx, IH. reflexivity.
Qed.

(** C1.  On a fresh builder, after any chain of [match], [optionalMatch],
    [where] and [with] calls and nothing else, [build] returns the
    newline-join of the fragments the calls added: the match-buffer
    fragments, then the where-buffer ones, then the with-buffer ones, each
    group in call order.  None of these is empty, and the two unset slots
    are dropped before joining, so the joined elements are exactly the
    fragments. *)
Theorem clause_chain_renders_in_buffer_order :
  forall (V : Type) (h : heap V) (cs : list (call V)),
    forallb clause_adding cs = true ->
    let fragments :=
      flat_map match_fragment cs ++ flat_map where_fragment cs
        ++ flat_map with_fragment cs in
    exists (h' : heap V) (b : QueryBuilder),
      (builder <- new_QueryBuilder ;;
       chain_on cs builder ;;;
       build builder) h
      = Some (join nl fragments, h')
      /\ builders h' !! length (builders h) = Some b
      /\ matchClauses b = flat_map match_fragment cs
      /\ whereClauses b = flat_map where_fragment cs
      /\ withClauses b = flat_map with_fragment cs
      /\ List.filter Boolean (build_parts b) = fragments
      /\ Forall (fun f => f <> "") fragments.
Proof.
  intros V h cs Hcs fragments.
  set (p := length (objects h)). set (this := length (builders h)).
  set (b := add_fragments cs (empty_fields p)).
  assert (Hparts : List.filter Boolean (build_parts b) = fragments).
  { unfold build_parts, b, add_fragments.
    cbn [matchClauses whereClauses withClauses returnClause orderByClause
           skipValue limitValue empty_fields app].
    rewrite !app_assoc, List.filter_app. cbn [List.filter Boolean].
    rewrite app_nil_r, <- app_assoc. apply filter_Boolean_id, fragments_nonempty. }
  exists (mkHeap (<[this := b]> (builders h ++ [empty_fields p])) (objects h ++ [∅])), b.
  assert (Hb : <[this := b]> (builders h ++ [empty_fields p]) !! this = Some b).
  { apply list_lookup_insert_eq. rewrite length_app. simpl. subst this. lia. }
  split; [|split; [exact Hb|]].
  - erewrite bind_eq by apply new_QueryBuilder_run.
    erewrite bind_eq
      by (apply clause_adding_chain_run;
          [exact Hcs | cbn [builders]; apply lookup_snoc]).
    rewrite build_run. cbn [builders objects]. fold this p b. rewrite Hb.
    unfold render. rewrite Hparts. reflexivity.
  - repeat (split; [reflexivity|]). split; [exact Hparts|].
    eapply List.Forall_impl; [|apply fragments_nonempty].
    intros f Hf ->. discriminate Hf.
Qed.

(** ** What a successful call did *)

Section Inversion.

Context {V : Type}.

Lemma update_fields_Some f this (h : heap V) r h' :
  update_fields f this h = Some (r, h') ->
  r = this
  /\ exists b, builders h !! this = Some b
               /\ builders h' = <[this := f b]> (builders h)
               /\ objects h' = objects h.
Proof.
  unfold update_fields. destruct (builders h !! this) as [b|]; [|discriminate].
  intros [= <- <-]. eauto.
Qed.

Lemma getParameters_builders this (h : heap V) r h' :
  getParameters this h = Some (r, h') -> builders h' = builders h.
Proof.
  rewrite getParameters_run.
  destruct (builders h !! this) as [b|]; [|discriminate].
  destruct (objects h !! parameters b); [|discriminate].
  intros [= <- <-]. reflexivity.
Qed.

Lemma Object_assign_builders target source (h : heap V) u h' :
  Object_assign target source h = Some (u, h') -> builders h' = builders h.
Proof.
  unfold Object_assign. intros H.
  apply bind_Some in H as (t & h1 & Ht & H).
  apply read_object_Some in Ht as [_ ->].
  apply bind_Some in H as (s & h2 & Hs & H).
  apply read_object_Some in Hs as [_ ->].
  apply write_object_Some in H as [_ ->]. reflexivity.
Qed.

(** The part of [subquery], [union] and [unionAll] that merges the
    parameters of another builder does not touch any builder's fields. *)
Lemma merge_parameters_builders this otherQuery (h : heap V) r h' :
  (b <- get_fields this ;;
   source <- getParameters otherQuery ;;
   Object_assign (parameters b) source ;;;
   ret this) h = Some (r, h') ->
  r = this /\ builders h' = builders h.
Proof.
  intros H.
  apply bind_Some in H as (b & h1 & Hb & H).
  apply get_fields_Some in Hb as [_ ->].
  apply bind_Some in H as (s & h2 & Hs & H).
  apply getParameters_builders in Hs.
  apply bind_Some in H as (u & h3 & Ha & H).
  apply Object_assign_builders in Ha.
  injection H as <- <-. split; congruence.
Qed.

Lemma union_tail_builders keyword this otherQuery (h : heap V) A B r h' :
  builders h !! this = Some A ->
  (clear this ;;;
   b <- get_fields this ;;
   put_fields this
     (set_matchClauses
        (matchClauses b ++ [union_entry keyword (render A) (render B)]) b) ;;;
   b <- get_fields this ;;
   source <- getParameters otherQuery ;;
   Object_assign (parameters b) source ;;;
   ret this) h = Some (r, h') ->
  r = this
  /\ builders h'
     = <[this := union_fields keyword A B (length (objects h))]> (builders h).
Proof.
  intros HA H. pose proof (lookup_lt_Some _ _ _ HA) as Hlt.
  apply bind_Some in H as (r1 & h1 & Hc & H).
  rewrite clear_run, HA in Hc. injection Hc as <- <-.
  apply bind_Some in H as (b & h2 & Hb & H).
  apply get_fields_Some in Hb as [Hb ->]. cbn [builders] in Hb.
  rewrite list_lookup_insert_eq in Hb by exact Hlt. injection Hb as <-.
  apply bind_Some in H as (u & h3 & Hp & H).
  apply put_fields_Some in Hp as [_ ->]. cbn [builders objects] in H.
  rewrite list_insert_insert_eq in H.
  apply merge_parameters_builders in H as [-> ->]. auto.
Qed.

Lemma union_builders this otherQuery (h : heap V) r h' :
  union this otherQuery h = Some (r, h') ->
  r = this
  /\ exists A B,
       builders h !! this = Some A /\ builders h !! otherQuery = Some B
       /\ builders h'
          = <[this := union_fields "UNION" A B (length (objects h))]>
              (builders h).
Proof.
  unfold union. intros H.
  apply bind_Some in H as (cur & h1 & Hcur & H). rewrite build_run in Hcur.
  destruct (builders h !! this) as [A|] eqn:HA; [|discriminate].
  injection Hcur as <- <-.
  apply bind_Some in H as (oth & h1 & Hoth & H). rewrite build_run in Hoth.
  destruct (builders h !! otherQuery) as [B|] eqn:HB; [|discriminate].
  injection Hoth as <- <-.
  apply (union_tail_builders "UNION" _ _ _ A B) in H as [-> ->]; [|exact HA].
  split; [reflexivity|]. exists A, B. auto.
Qed.

Lemma unionAll_builders this otherQuery (h : heap V) r h' :
  unionAll this otherQuery h = Some (r, h') ->
  r = this
  /\ exists A B,
       builders h !! this = Some A /\ builders h !! otherQuery = Some B
       /\ builders h'
          = <[this := union_fields "UNION ALL" A B (length (objects h))]>
              (builders h).
Proof.
  unfold unionAll. intros H.
  apply bind_Some in H as (cur & h1 & Hcur & H). rewrite build_run in Hcur.
  destruct (builders h !! this) as [A|] eqn:HA; [|discriminate].
  injection Hcur as <- <-.
  apply bind_Some in H as (oth & h1 & Hoth & H). rewrite build_run in Hoth.
  destruct (builders h !! otherQuery) as [B|] eqn:HB; [|discriminate].
  injection Hoth as <- <-.
  apply (union_tail_builders "UNION ALL" _ _ _ A B) in H as [-> ->]; [|exact HA].
  split; [reflexivity|]. exists A, B. auto.
Qed.

(** Every call but [subquery] replaces the fields of [this] by
    [fields_after] and leaves the other builders alone. *)
Lemma flat_call_builders (c : call V) this (h : heap V) r h' :
  is_subquery c = false ->
  call_on c this h = Some (r, h') ->
  r = this
  /\ exists b,
       builders h !! this = Some b
       /\ builders h'
          = <[this := fields_after c b (builders h) (length (objects h))]>
              (builders h).
Proof.
  intros Hflat H. destruct c; try discriminate Hflat; cbn [call_on] in H;
    rewrite ?match_run, ?optionalMatch_run, ?where_run, ?andWhere_run,
      ?orWhere_run, ?with_run, ?return_run, ?orderBy_run, ?skip_run,
      ?limit_run in H;
    try (apply update_fields_Some in H as (-> & b & Hb & -> & _);
         split; [reflexivity|]; exists b; split; [exact Hb|reflexivity]).
  - rewrite setParameter_run in H.
    destruct (builders h !! this) as [b|] eqn:Hb; [|discriminate].
    destruct (objects h !! parameters b); [|discriminate].
    injection H as <- <-. split; [reflexivity|]. exists b. split; [reflexivity|].
    cbn [builders fields_after]. symmetry. apply list_insert_id, Hb.
  - rewrite clear_run in H.
    destruct (builders h !! this) as [b|] eqn:Hb; [|discriminate].
    injection H as <- <-. split; [reflexivity|]. exists b. auto.
  - apply union_builders in H as (-> & A & B & HA & HB & ->).
    split; [reflexivity|]. exists A. split; [exact HA|].
    cbn [fields_after]. rewrite HB. reflexivity.
  - apply unionAll_builders in H as (-> & A & B & HA & HB & ->).
    split; [reflexivity|]. exists A. split; [exact HA|].
    cbn [fields_after]. rewrite HB. reflexivity.
Qed.

Lemma subquery_builders this callback (h : heap V) r h' :
  subquery this callback h = Some (r, h') ->
  r = this
  /\ exists h2 sb b,
       callback (length (builders h))
         (mkHeap (builders h ++ [empty_fields (length (objects h))])
            (objects h ++ [∅]))
       = Some (tt, h2)
       /\ builders h2 !! length (builders h) = Some sb
       /\ builders h2 !! this = Some b
       /\ builders h'
          = <[this := set_matchClauses
                        (matchClauses b ++ ["(" +:+ render sb +:+ ")"]) b]>
              (builders h2).
Proof.
  unfold subquery. intros H.
  apply bind_Some in H as (sub & h1 & Hnew & H).
  rewrite new_QueryBuilder_run in Hnew. injection Hnew as <- <-.
  apply bind_Some in H as ([] & h2 & Hcb & H).
  apply bind_Some in H as (text & h3 & Hsub & H). rewrite build_run in Hsub.
  destruct (builders h2 !! length (builders h)) as [sb|] eqn:Hsb; [|discriminate].
  injection Hsub as <- <-.
  apply bind_Some in H as (b & h3 & Hb & H).
  apply get_fields_Some in Hb as [Hb ->].
  apply bind_Some in H as (u & h3 & Hp & H).
  apply put_fields_Some in Hp as [_ ->].
  apply merge_parameters_builders in H as [-> ->].
  split; [reflexivity|]. exists h2, sb, b. auto.
Qed.

End Inversion.

(** ** Invariants of checked programs *)

Lemma call_nested_ind {V : Type} (Q : call V -> Prop) :
  (forall c, is_subquery c = false -> Q c) ->
  (forall callback, Forall Q callback -> Q (Subquery callback)) ->
  forall c, Q c.
Proof.
  intros Hflat Hsub. fix IH 1. intros c.
  destruct c; try (apply Hflat; reflexivity).
  apply Hsub. induction callback as [|c cs IHcs]; constructor.
  - apply IH.
  - exact IHcs.
Qed.

Lemma checked_chain_cons {V : Type} adm (c : call V) cs this h :
  checked_chain adm (c :: cs) this h
  = checked_call adm c this h
    && match call_on c this h with
       | Some (_, h') => checked_chain adm cs this h'
       | None => true
       end.
Proof. reflexivity. Qed.

Lemma checked_call_Subquery {V : Type} adm (callback : list (call V)) this h :
  checked_call adm (Subquery callback) this h
  = checked_chain adm callback (length (builders h))
      (mkHeap (builders h ++ [empty_fields (length (objects h))])
         (objects h ++ [∅])).
Proof. reflexivity. Qed.

Section Invariant.

Context {V : Type}.
Variable P : QueryBuilder -> Prop.
Variable adm : call V -> loc -> heap V -> bool.

Hypothesis P_new : forall p, P (empty_fields p).

Hypothesis P_flat :
  forall c this (h : heap V) b,
    is_subquery c = false ->
    adm c this h = true ->
    Forall P (builders h) ->
    builders h !! this = Some b ->
    P (fields_after c b (builders h) (length (objects h))).

Hypothesis P_subquery :
  forall b sb,
    P b -> P sb ->
    P (set_matchClauses (matchClauses b ++ ["(" +:+ render sb +:+ ")"]) b).

Lemma chain_preserves cs :
  Forall (call_preserves P adm) cs ->
  forall this h u h',
    checked_chain adm cs this h = true ->
    Forall P (builders h) ->
    chain_on cs this h = Some (u, h') ->
    Forall P (builders h').
Proof.
  induction 1 as [|c cs Hc _ IH]; intros this h u h' Hchk HP Hrun.
  - rewrite chain_on_nil in Hrun. injection Hrun as _ <-. exact HP.
  - rewrite chain_on_cons in Hrun. rewrite checked_chain_cons in Hchk.
    apply bind_Some in Hrun as (r & h1 & Hcall & Hrun).
    apply andb_prop in Hchk as [Hchk1 Hchk2]. rewrite Hcall in Hchk2.
    destruct (Hc this h r h1 Hchk1 HP Hcall) as [_ HP1].
    exact (IH this h1 u h' Hchk2 HP1 Hrun).
Qed.

Lemma checked_call_preserves c : call_preserves P adm c.
Proof.
  induction c as [c Hflat|callback IH] using call_nested_ind;
    intros this h r h' Hchk HP Hrun.
  - assert (Hadm : adm c this h = true)
      by (destruct c; try discriminate Hflat; exact Hchk).
    apply flat_call_builders in Hrun as (-> & b & Hb & ->); [|exact Hflat].
    split; [reflexivity|]. apply Forall_insert; [exact HP|].
    apply (P_flat c this h b); assumption.
  - rewrite call_on_Subquery in Hrun. rewrite checked_call_Subquery in Hchk.
    apply subquery_builders in Hrun as (-> & h2 & sb & b & Hcb & Hsb & Hb & ->).
    split; [reflexivity|].
    assert (HP2 : Forall P (builders h2)).
    { eapply (chain_preserves callback IH); [exact Hchk| |exact Hcb].
      cbn [builders]. apply Forall_app. split; [exact HP|].
      constructor; [apply P_new|constructor]. }
    apply Forall_insert; [exact HP2|].
    apply P_subquery.
    + exact (proj1 (Forall_lookup _ _) HP2 _ _ Hb).
    + exact (proj1 (Forall_lookup _ _) HP2 _ _ Hsb).
Qed.

Lemma checked_run_preserves p :
  forall h u h',
    checked_run adm p h = true ->
    Forall P (builders h) ->
    run p h = Some (u, h') ->
    Forall P (builders h').
Proof.
  induction p as [|s p IH]; intros h u h' Hchk HP Hrun.
  - injection Hrun as _ <-. exact HP.
  - cbn [run] in Hrun. cbn [checked_run] in Hchk.
    apply bind_Some in Hrun as (v & h1 & Hs & Hrun).
    apply andb_prop in Hchk as [Hchk1 Hchk2]. rewrite Hs in Hchk2.
    apply (IH h1 u h' Hchk2); [|exact Hrun].
    destruct s as [|this c|this|this]; cbn [exec] in Hs;
      apply bind_Some in Hs as (r & h0 & Hs & Hret);
      injection Hret as _ <-.
    + rewrite new_QueryBuilder_run in Hs. injection Hs as _ <-.
      cbn [builders]. apply Forall_app. split; [exact HP|].
      constructor; [apply P_new|constructor].
    + exact (proj2 (checked_call_preserves c this h r h0 Hchk1 HP Hs)).
    + rewrite build_run in Hs.
      destruct (builders h !! this); [|discriminate].
      injection Hs as _ <-. exact HP.
    + apply getParameters_builders in Hs. rewrite Hs. exact HP.
Qed.

(** Every builder of a store reached by a checked program satisfies [P]. *)
Lemma checked_reachable p h this b :
  checked_run adm p empty_heap = true ->
  run p empty_heap = Some (tt, h) ->
  builders h !! this = Some b ->
  P b.
Proof.
  intros Hchk Hrun Hb.
  assert (HP : Forall P (builders h)).
  { apply (checked_run_preserves p empty_heap tt h Hchk); [constructor|exact Hrun]. }
  exact (proj1 (Forall_lookup _ _) HP _ _ Hb).
Qed.

End Invariant.

(** ** No trailing line feed *)

Lemma no_newline_no_trailing s :
  has_newline s = false -> ends_with_newline s = false.
Proof.
  induction s as [|c s IH]; simpl; [reflexivity|].
  intros H. apply orb_false_iff in H as [Hc Hs].
  destruct s; [exact Hc|exact (IH Hs)].
Qed.

Lemma Boolean_app a b : Boolean (a +:+ b) = Boolean a || Boolean b.
Proof. destruct a; reflexivity. Qed.

Lemma ends_with_newline_keyword keyword text :
  Boolean keyword = true ->
  ends_with_newline keyword = false ->
  ends_with_newline text = false ->
  ends_with_newline (keyword +:+ text) = false.
Proof.
  intros Hk Hk' Ht. rewrite ends_with_newline_app, Ht, Hk'.
  destruct (Boolean text); reflexivity.
Qed.

Lemma tidy_iff b :
  tidy b <->
  Forall (fun f => ends_with_newline f = false) (matchClauses b)
  /\ Forall (fun f => ends_with_newline f = false) (whereClauses b)
  /\ Forall (fun f => ends_with_newline f = false) (withClauses b)
  /\ ends_with_newline (returnClause b) = false
  /\ ends_with_newline (orderByClause b) = false.
Proof.
  unfold tidy, stored_fragments. rewrite !Forall_app, !Forall_cons.
  pose proof (Forall_nil_2 (fun f => ends_with_newline f = false)).
  tauto.
Qed.

Lemma tidy_render b : tidy b -> ends_with_newline (render b) = false.
Proof.
  intros Ht. unfold render. apply ends_with_newline_join.
  apply List.Forall_forall. intros f Hf. apply filter_In in Hf as [Hf Hne].
  split; [exact Hne|].
  rewrite build_parts_split in Hf. apply in_app_or in Hf as [Hf|Hf].
  - exact (proj1 (List.Forall_forall _ _) Ht f Hf).
  - apply no_newline_no_trailing. unfold pagination_parts in Hf.
    apply in_app_or in Hf as [Hf|Hf].
    + destruct (skipValue b); [|contradiction].
      destruct Hf as [<-|[]]. apply skip_line_no_newline.
    + destruct (limitValue b); [|contradiction].
      destruct Hf as [<-|[]]. apply limit_line_no_newline.
Qed.

Lemma tidy_empty_fields p : tidy (empty_fields p).
Proof. repeat constructor. Qed.

Lemma tidy_subquery b sb :
  tidy b -> tidy sb ->
  tidy (set_matchClauses (matchClauses b ++ ["(" +:+ render sb +:+ ")"]) b).
Proof.
  intros Hb _. apply tidy_iff in Hb as (Hm & Hw & Hwi & Hr & Ho).
  apply tidy_iff. cbn [set_matchClauses matchClauses whereClauses withClauses
                         returnClause orderByClause].
  repeat split; try assumption.
  apply Forall_app. split; [exact Hm|]. constructor; [|constructor].
  rewrite !ends_with_newline_app, Boolean_app, orb_true_r. reflexivity.
Qed.

Lemma tidy_union keyword A B p :
  Boolean keyword = true ->
  tidy B -> Boolean (render B) = true ->
  tidy (union_fields keyword A B p).
Proof.
  intros Hk HB Hne. apply tidy_iff.
  cbn [union_fields matchClauses whereClauses withClauses returnClause
         orderByClause].
  repeat split; try constructor; try constructor.
  unfold union_entry.
  rewrite ends_with_newline_sep.
  - rewrite ends_with_newline_sep by exact Hne. apply tidy_render, HB.
  - destruct keyword; [discriminate Hk|reflexivity].
Qed.

Lemma tidy_flat {V : Type} (c : call V) this (h : heap V) b :
  is_subquery c = false ->
  newline_safe c this h = true ->
  Forall tidy (builders h) ->
  builders h !! this = Some b ->
  tidy (fields_after c b (builders h) (length (objects h))).
Proof.
  intros Hflat Hsafe Hall Hb.
  pose proof (proj1 (Forall_lookup _ _) Hall _ _ Hb) as Ht.
  pose proof Ht as Ht'. apply tidy_iff in Ht' as (Hm & Hw & Hwi & Hr & Ho).
  destruct c; try discriminate Hflat; cbn [fields_after newline_safe] in *;
    try exact Ht;
    try apply negb_true_iff in Hsafe;
    try match goal with
        | |- context [Nat.eqb ?n 0] => destruct (Nat.eqb n 0)
        end;
    try (apply tidy_iff;
         cbn [set_matchClauses set_whereClauses set_withClauses
                set_returnClause set_orderByClause set_skipValue
                set_limitValue matchClauses whereClauses withClauses
                returnClause orderByClause];
         repeat split; try assumption;
         try (apply Forall_app; split; [assumption|];
              constructor; [|constructor]);
         apply ends_with_newline_keyword; auto; fail).
  - apply tidy_empty_fields.
  - destruct (builders h !! otherQuery) as [B|] eqn:HB; [|discriminate].
    apply tidy_union; [reflexivity| |exact Hsafe].
    exact (proj1 (Forall_lookup _ _) Hall _ _ HB).
  - destruct (builders h !! otherQuery) as [B|] eqn:HB; [|discriminate].
    apply tidy_union; [reflexivity| |exact Hsafe].
    exact (proj1 (Forall_lookup _ _) Hall _ _ HB).
Qed.

(** C4, as the code has it.  In every store reached by a program whose
    caller-supplied texts do not end with a line feed and whose [union] and
    [unionAll] calls are handed a builder that renders to a non-empty text,
    [build] returns, for every builder, the newline-join of its non-empty
    elements, and that text does not end with a line feed. *)
Theorem build_no_trailing_newline :
  forall (V : Type) (p : list (stmt V)) (h : heap V) (this : loc)
         (b : QueryBuilder),
    checked_run newline_safe p empty_heap = true ->
    run p empty_heap = Some (tt, h) ->
    builders h !! this = Some b ->
    build this h = Some (render b, h)
    /\ render b = join nl (List.filter Boolean (build_parts b))
    /\ ends_with_newline (render b) = false
    /\ ~ (exists text, render b = text +:+ nl).
Proof.
  intros V p h this b Hchk Hrun Hb.
  assert (Ht : tidy b).
  { apply (checked_reachable tidy newline_safe tidy_empty_fields tidy_flat
             tidy_subquery p h this b Hchk Hrun Hb). }
  split; [rewrite build_run, Hb; reflexivity|].
  split; [reflexivity|].
  pose proof (tidy_render b Ht) as He. split; [exact He|].
  intros Hex. apply ends_with_newline_spec in Hex. congruence.
Qed.

(** C4, counterexample.  After [A.match('(a)')] and [A.union(B)] with a
    builder [B] that was left empty, [A.build()] ends with a line feed. *)
Lemma union_with_empty_ends_with_newline :
  exists (h : heap unit) (text : string),
    reachable h
    /\ build 0%nat h = Some (text, h)
    /\ text = "MATCH (a)" +:+ nl +:+ "UNION" +:+ nl
    /\ ends_with_newline text = true.
Proof.
  eexists _, _. split; [exists union_with_empty; vm_compute; reflexivity|].
  split; [vm_compute; reflexivity|].
  split; reflexivity.
Qed.

Lemma build_no_trailing_newline_witness :
  exists (h : heap unit) (b : QueryBuilder),
    build 0%nat h = Some (render b, h)
    /\ render b = join nl (List.filter Boolean (build_parts b))
    /\ ends_with_newline (render b) = false
    /\ ~ (exists text, render b = text +:+ nl).
Proof.
  eexists _, _.
  apply (build_no_trailing_newline unit union_then_subquery).
  - vm_compute. reflexivity.
  - vm_compute. reflexivity.
  - vm_compute. reflexivity.
Defined.

(** ** Lines of a text with a prefix or a suffix *)



Lemma map_last_nonempty {A : Type} (f : A -> A) l :
  l <> [] -> map_last f l <> [].
Proof. destruct l as [|x [|y l]]; simpl; congruence. Qed.









(** ** Pagination lines *)

Lemma pagination_line_no_newline w n : has_newline (pagination_line w n) = false.
Proof.
  unfold pagination_line. rewrite has_newline_app, number_to_string_no_newline.
  destruct w; reflexivity.
Qed.

Lemma pagination_line_prefix w n :
  starts_with (keyword w) (pagination_line w n) = true.
Proof. destruct w; reflexivity. Qed.

Lemma In_pagination_parts f b :
  In f (pagination_parts b) ->
  exists w n, pagination_value w b = Some n /\ f = pagination_line w n.
Proof.
  unfold pagination_parts. intros Hf. apply in_app_or in Hf as [Hf|Hf].
  - destruct (skipValue b) as [n|] eqn:E; [|contradiction].
    destruct Hf as [<-|[]]. exists SKIP, n. auto.
  - destruct (limitValue b) as [n|] eqn:E; [|contradiction].
    destruct Hf as [<-|[]]. exists LIMIT, n. auto.
Qed.












(** ** An element more makes a longer text *)









(** A number has one decimal numeral. *)
Lemma decimal_numeral_unique s s' n :
  decimal_numeral s n -> decimal_numeral s' n -> s = s'.
Proof.
  intros (d & Hs & Hd & Hn) (d' & Hs' & Hd' & Hn').
  assert (E : d = d').
  { rewrite <- Hd, <- Hd'. apply DecimalZ.of_iff. congruence. }
  subst d'. rewrite <- (NilZero.sis s d Hs). apply (NilZero.sis s' d Hs').
Qed.



(** ** Reachable stores are well formed *)

Section WellFormed.

Context {V : Type}.

Lemma well_formed_lookup (h : heap V) this b :
  well_formed h -> builders h !! this = Some b ->
  exists o, objects h !! parameters b = Some o.
Proof.
  intros Hwf Hb. apply lookup_lt_is_Some.
  exact (proj1 (Forall_lookup _ _) Hwf _ _ Hb).
Qed.

Lemma well_formed_grow (bs : list QueryBuilder) (os os' : list (gmap string V)) :
  (length os <= length os')%nat ->
  well_formed (mkHeap bs os) -> well_formed (mkHeap bs os').
Proof.
  unfold well_formed. cbn [builders objects]. intros Hle Hwf.
  eapply List.Forall_impl; [|exact Hwf]. cbn beta. intros b Hb. lia.
Qed.

Lemma well_formed_insert (h : heap V) this b :
  well_formed h -> (parameters b < length (objects h))%nat ->
  well_formed (mkHeap (<[this := b]> (builders h)) (objects h)).
Proof. intros Hwf Hb. apply Forall_insert; assumption. Qed.

Lemma merge_parameters_well_formed this otherQuery (h : heap V) r h' :
  (b <- get_fields this ;;
   source <- getParameters otherQuery ;;
   Object_assign (parameters b) source ;;;
   ret this) h = Some (r, h') ->
  well_formed h -> well_formed h'.
Proof.
  intros H Hwf.
  apply bind_Some in H as (b & h1 & Hb & H).
  apply get_fields_Some in Hb as [_ ->].
  apply bind_Some in H as (s & h2 & Hs & H).
  rewrite getParameters_run in Hs.
  destruct (builders h !! otherQuery) as [B|]; [|discriminate].
  destruct (objects h !! parameters B) as [o|]; [|discriminate].
  injection Hs as <- <-.
  apply bind_Some in H as (u & h3 & Ha & H). injection H as _ <-.
  unfold Object_assign in Ha.
  apply bind_Some in Ha as (t & h4 & Ht & Ha).
  apply read_object_Some in Ht as [_ ->].
  apply bind_Some in Ha as (s' & h5 & Hs' & Ha).
  apply read_object_Some in Hs' as [_ ->].
  apply write_object_Some in Ha as [_ ->]. cbn [builders objects].
  destruct h as [bs os]. cbn [builders objects] in *.
  apply (well_formed_grow bs os); [|exact Hwf].
  rewrite length_insert, length_app. lia.
Qed.

Lemma flat_call_well_formed (c : call V) this (h : heap V) r h' :
  is_subquery c = false ->
  call_on c this h = Some (r, h') ->
  well_formed h -> well_formed h'.
Proof.
  intros Hflat H Hwf. destruct c; try discriminate Hflat; cbn [call_on] in H;
    rewrite ?match_run, ?optionalMatch_run, ?where_run, ?andWhere_run,
      ?orWhere_run, ?with_run, ?return_run, ?orderBy_run, ?skip_run,
      ?limit_run in H;
    try (unfold update_fields in H;
         destruct (builders h !! this) as [b|] eqn:Hb; [|discriminate];
         injection H as _ <-; apply well_formed_insert; [exact Hwf|];
         pose proof (proj1 (Forall_lookup _ _) Hwf _ _ Hb);
         try match goal with
             | |- context [Nat.eqb ?n 0] => destruct (Nat.eqb n 0)
             end; assumption).
  - rewrite setParameter_run in H.
    destruct (builders h !! this) as [b|] eqn:Hb; [|discriminate].
    destruct (objects h !! parameters b); [|discriminate].
    injection H as _ <-. destruct h as [bs os]. cbn [builders objects] in *.
    apply (well_formed_grow bs os); [|exact Hwf]. rewrite length_insert. lia.
  - rewrite clear_run in H.
    destruct (builders h !! this) as [b|] eqn:Hb; [|discriminate].
    injection H as _ <-. destruct h as [bs os]. cbn [builders objects] in *.
    apply (well_formed_insert (mkHeap bs (os ++ [∅]))).
    + apply (well_formed_grow bs os); [|exact Hwf]. rewrite length_app. lia.
    + cbn [objects parameters empty_fields]. rewrite length_app. simpl. lia.
  - pose proof H as H'.
    apply union_builders in H' as (_ & A & B & HA & HB & _).
    destruct (well_formed_lookup h _ B Hwf HB) as [o Ho].
    rewrite (union_run _ _ _ _ _ _ HA HB Ho) in H. cbn zeta in H.
    injection H as _ <-. destruct h as [bs os]. cbn [builders objects] in *.
    apply (well_formed_insert (mkHeap bs (os ++ _))).
    + apply (well_formed_grow bs os); [|exact Hwf]. rewrite length_app. lia.
    + cbn [objects parameters union_fields]. rewrite length_app. simpl. lia.
  - pose proof H as H'.
    apply unionAll_builders in H' as (_ & A & B & HA & HB & _).
    destruct (well_formed_lookup h _ B Hwf HB) as [o Ho].
    rewrite (unionAll_run _ _ _ _ _ _ HA HB Ho) in H. cbn zeta in H.
    injection H as _ <-. destruct h as [bs os]. cbn [builders objects] in *.
    apply (well_formed_insert (mkHeap bs (os ++ _))).
    + apply (well_formed_grow bs os); [|exact Hwf]. rewrite length_app. lia.
    + cbn [objects parameters union_fields]. rewrite length_app. simpl. lia.
Qed.

Lemma new_QueryBuilder_well_formed (h : heap V) :
  well_formed h ->
  well_formed (mkHeap (builders h ++ [empty_fields (length (objects h))])
                 (objects h ++ [∅])).
Proof.
  intros Hwf. destruct h as [bs os]. cbn [builders objects] in *.
  unfold well_formed. cbn [builders objects]. apply Forall_app. split.
  - apply (well_formed_grow bs os); [|exact Hwf]. rewrite length_app. lia.
  - constructor; [|constructor]. cbn [parameters empty_fields].
    rewrite length_app. simpl. lia.
Qed.

Lemma chain_well_formed cs :
  Forall (fun c => forall this (h : heap V) r h',
              call_on c this h = Some (r, h') ->
              well_formed h -> well_formed h') cs ->
  forall this (h : heap V) u h',
    chain_on cs this h = Some (u, h') -> well_formed h -> well_formed h'.
Proof.
  induction 1 as [|c cs Hc _ IH]; intros this h u h' Hrun Hwf.
  - rewrite chain_on_nil in Hrun. injection Hrun as _ <-. exact Hwf.
  - rewrite chain_on_cons in Hrun.
    apply bind_Some in Hrun as (r & h1 & Hcall & Hrun).
    exact (IH this h1 u h' Hrun (Hc this h r h1 Hcall Hwf)).
Qed.

Lemma call_well_formed (c : call V) :
  forall this (h : heap V) r h',
    call_on c this h = Some (r, h') -> well_formed h -> well_formed h'.
Proof.
  induction c as [c Hflat|callback IH] using call_nested_ind;
    intros this h r h' Hrun Hwf.
  - exact (flat_call_well_formed c this h r h' Hflat Hrun Hwf).
  - rewrite call_on_Subquery in Hrun. unfold subquery in Hrun.
    apply bind_Some in Hrun as (sub & h1 & Hnew & Hrun).
    rewrite new_QueryBuilder_run in Hnew. injection Hnew as <- <-.
    apply bind_Some in Hrun as ([] & h2 & Hcb & Hrun).
    pose proof (chain_well_formed callback IH _ _ _ _ Hcb
                  (new_QueryBuilder_well_formed h Hwf)) as Hwf2.
    apply bind_Some in Hrun as (text & h3 & Hsub & Hrun).
    rewrite build_run in Hsub.
    destruct (builders h2 !! length (builders h)) as [sb|]; [|discriminate].
    injection Hsub as <- <-.
    apply bind_Some in Hrun as (b & h3 & Hb & Hrun).
    apply get_fields_Some in Hb as [Hb ->].
    apply bind_Some in Hrun as (u & h3 & Hp & Hrun).
    apply put_fields_Some in Hp as [_ ->].
    apply merge_parameters_well_formed in Hrun; [exact Hrun|].
    apply well_formed_insert; [exact Hwf2|].
    exact (proj1 (Forall_lookup _ _) Hwf2 _ _ Hb).
Qed.

(** In a store a client can reach, the parameter map of every builder is
    there to be read. *)
Lemma reachable_well_formed (h : heap V) : reachable h -> well_formed h.
Proof.
  intros [p Hrun].
  assert (Hgen : forall (p : list (stmt V)) h0 u h1,
             run p h0 = Some (u, h1) -> well_formed h0 -> well_formed h1).
  { clear. induction p as [|s p IH]; intros h0 u h1 Hrun Hwf.
    - injection Hrun as _ <-. exact Hwf.
    - cbn [run] in Hrun. apply bind_Some in Hrun as (v & h2 & Hs & Hrun).
      apply (IH h2 u h1 Hrun).
      destruct s as [|this c|this|this]; cbn [exec] in Hs;
        apply bind_Some in Hs as (r & h3 & Hs & Hret);
        injection Hret as _ <-.
      + rewrite new_QueryBuilder_run in Hs. injection Hs as _ <-.
        apply new_QueryBuilder_well_formed, Hwf.
      + exact (call_well_formed c this h0 r h3 Hs Hwf).
      + rewrite build_run in Hs.
        destruct (builders h0 !! this); [|discriminate].
        injection Hs as _ <-. exact Hwf.
      + rewrite getParameters_run in Hs.
        destruct (builders h0 !! this) as [b|]; [|discriminate].
        destruct (objects h0 !! parameters b); [|discriminate].
        injection Hs as _ <-. destruct h0 as [bs os].
        cbn [builders objects] in *.
        apply (well_formed_grow bs os); [|exact Hwf]. rewrite length_app. lia. }
  apply (Hgen p empty_heap tt h Hrun). constructor.
Qed.

(** [A.union(A)]: the parameters are read after [clear], so the builder is
    left with an empty parameter map. *)
Lemma union_self_parameters this (h : heap V) A o :
  builders h !! this = Some A ->
  objects h !! parameters A = Some o ->
  exists h' A',
    union this this h = Some (this, h')
    /\ builders h' !! this = Some A'
    /\ objects h' !! parameters A' = Some ∅.
Proof.
  intros HA Ho. rewrite (union_run _ _ _ _ _ _ HA HA Ho). cbn zeta.
  rewrite decide_True by reflexivity.
  eexists _, _. split; [reflexivity|]. cbn [builders objects].
  split; [apply list_lookup_insert_eq; eapply lookup_lt_Some; exact HA|].
  cbn [parameters union_fields]. apply lookup_snoc2_fst.
Qed.

End WellFormed.

(** ** The statements at work *)

Lemma two_builders_run :
  run two_builders_program empty_heap = Some (tt, two_builders).
Proof. vm_compute. reflexivity. Qed.

Lemma two_builders_reachable : reachable two_builders.
Proof. exists two_builders_program. exact two_builders_run. Qed.

Lemma clause_chain_renders_witness :
  exists h',
    (builder <- new_QueryBuilder ;;
     chain_on clause_chain builder ;;;
     build builder) two_builders
    = Some ("MATCH (p:Person)" +:+ nl
            +:+ "OPTIONAL MATCH (p)-[:OWNS]->(c:Car)" +:+ nl
            +:+ "WHERE p.age > $minAge" +:+ nl
            +:+ "WHERE c.year > $year" +:+ nl
            +:+ "WITH p", h').
Proof.
  destruct (clause_chain_renders_in_buffer_order Z two_builders clause_chain
              eq_refl) as (h' & b & Hrun & _).
  exists h'. exact Hrun.
Defined.

Lemma union_spec_witness :
  union_postcondition "UNION" 0%nat 1%nat person_fields car_fields
    car_parameters (union 0%nat 1%nat two_builders)
  /\ union_postcondition "UNION ALL" 0%nat 1%nat person_fields car_fields
       car_parameters (unionAll 0%nat 1%nat two_builders).
Proof.
  apply (union_spec Z two_builders 0%nat 1%nat person_fields car_fields
           car_parameters); reflexivity.
Defined.

Lemma union_leaves_other_untouched_witness :
  union_frame 1%nat car_fields car_parameters 0%nat
    (union 0%nat 1%nat two_builders)
  /\ union_frame 1%nat car_fields car_parameters 0%nat
       (unionAll 0%nat 1%nat two_builders).
Proof.
  apply (union_leaves_other_untouched Z two_builders 0%nat 1%nat
           person_fields car_fields car_parameters);
    [discriminate|reflexivity|reflexivity|reflexivity].
Defined.


Lemma build_pure_witness :
  build 0%nat two_builders = Some (render person_fields, two_builders)
  /\ (first <- build 0%nat ;; second <- build 0%nat ;; ret (first, second))
       two_builders
     = Some ((render person_fields, render person_fields), two_builders).
Proof.
  apply (build_pure Z two_builders 0%nat person_fields). reflexivity.
Defined.

Lemma getParameters_copy_witness :
  exists (r : loc) (h' : heap Z),
    getParameters 0%nat two_builders = Some (r, h')
    /\ objects h' !! r = Some person_parameters
    /\ r <> parameters person_fields.
Proof.
  destruct (getParameters_copy Z two_builders 0%nat person_fields
              person_parameters eq_refl eq_refl)
    as (r & h' & Hget & Hcontent & Hfresh & _).
  exists r, h'. auto.
Defined.

Lemma empty_subquery_witness :
  exists h' : heap Z,
    subquery 0%nat (fun _ => ret tt) two_builders = Some (0%nat, h')
    /\ builders h' !! 0%nat
       = Some (set_matchClauses ["MATCH (p:Person)"; "()"] person_fields)
    /\ exists text : string,
         build 0%nat h' = Some (text, h') /\ In "()" (lines text).
Proof.
  apply (empty_subquery_adds_parentheses Z two_builders 0%nat person_fields
           person_parameters (fun _ => ret tt)); reflexivity.
Defined.


(** * Further properties of the class *)

(** ** Reset *)

(** X1.  [clear] brings a builder back to its state at construction:
    [build] then returns the empty text and [getParameters] an empty
    mapping, whatever the builder held.  The other builders and every
    object allocated before (the old parameter map, copies handed out
    earlier) are left as they were. *)
Theorem clear_resets :
  forall (V : Type) (h : heap V) (this : loc) (b : QueryBuilder),
    builders h !! this = Some b ->
    exists h1 : heap V,
      clear this h = Some (this, h1)
      /\ build this h1 = Some (EmptyString, h1)
      /\ (exists r h2,
            getParameters this h1 = Some (r, h2) /\ objects h2 !! r = Some ∅)
      /\ (forall other, other <> this ->
            builders h1 !! other = builders h !! other)
      /\ (forall p o, objects h !! p = Some o -> objects h1 !! p = Some o).
Proof.
  intros V h this b Hb. pose proof (lookup_lt_Some _ _ _ Hb) as Hlt.
  eexists. split; [rewrite clear_run, Hb; reflexivity|].
  assert (E : <[this := empty_fields (length (objects h))]> (builders h) !! this
              = Some (empty_fields (length (objects h))))
    by (apply list_lookup_insert_eq; exact Hlt).
  split; [rewrite build_run; cbn [builders]; rewrite E; reflexivity|].
  split.
  - eexists _, _. rewrite getParameters_run. cbn [builders objects].
    rewrite E. cbn [parameters empty_fields]. rewrite lookup_snoc.
    split; [reflexivity|]. cbn [objects]. apply lookup_snoc.
  - split.
    + intros other Hne. cbn [builders].
      apply list_lookup_insert_ne. congruence.
    + intros p o Ho. cbn [objects]. apply lookup_app_l_Some, Ho.
Qed.

(** ** Parameters *)






(** ** Singular slots and pagination values *)

(** X4.  [return], [orderBy], [skip] and [limit] overwrite: calling one of
    them twice leaves the store that the second call alone leaves. *)
Theorem setters_overwrite :
  forall (V : Type) (h : heap V) (this : loc) (e1 e2 : string)
         (n1 n2 : number),
    (return_ this e1 ;;; return_ this e2) h = return_ this e2 h
    /\ (orderBy this e1 ;;; orderBy this e2) h = orderBy this e2 h
    /\ (skip this n1 ;;; skip this n2) h = skip this n2 h
    /\ (limit this n1 ;;; limit this n2) h = limit this n2 h.
Proof.
  intros V h this e1 e2 n1 n2.
  repeat split; unfold bind;
    rewrite ?return_run, ?orderBy_run, ?skip_run, ?limit_run;
    unfold update_fields;
    (destruct (builders h !! this) as [b|] eqn:Hb; [|reflexivity]);
    rewrite ?return_run, ?orderBy_run, ?skip_run, ?limit_run;
    unfold update_fields; cbn [builders objects];
    rewrite list_lookup_insert_eq by (eapply lookup_lt_Some; exact Hb);
    rewrite list_insert_insert_eq; reflexivity.
Qed.

(** ** Calls on different fields *)

Section Commute.

Context {V : Type}.

Lemma field_call_run (c : call V) f this (h : heap V) :
  written_field c = Some f -> f <> FParameters ->
  call_on c this h = update_fields (fun b => fields_after c b [] 0%nat) this h.
Proof.
  intros Hf Hne. destruct c; try discriminate Hf; cbn [call_on fields_after];
    try (injection Hf as <-; contradiction);
    rewrite ?match_run, ?optionalMatch_run, ?where_run, ?andWhere_run,
      ?orWhere_run, ?with_run, ?return_run, ?orderBy_run, ?skip_run,
      ?limit_run; reflexivity.
Qed.

Lemma update_fields_twice f g this (h : heap V) :
  (update_fields f this ;;; update_fields g this) h
  = update_fields (fun b => g (f b)) this h.
Proof.
  unfold bind, update_fields.
  destruct (builders h !! this) as [b|] eqn:Hb; [|reflexivity].
  cbn [builders objects].
  rewrite list_lookup_insert_eq by (eapply lookup_lt_Some; exact Hb).
  rewrite list_insert_insert_eq. reflexivity.
Qed.

Lemma update_fields_ext f g this (h : heap V) :
  (forall b, f b = g b) -> update_fields f this h = update_fields g this h.
Proof.
  intros Hfg. unfold update_fields.
  destruct (builders h !! this); [rewrite Hfg|]; reflexivity.
Qed.

Lemma fields_after_commute (c1 c2 : call V) f1 f2 b :
  written_field c1 = Some f1 -> written_field c2 = Some f2 ->
  f1 <> FParameters -> f2 <> FParameters -> f1 <> f2 ->
  fields_after c2 (fields_after c1 b [] 0%nat) [] 0%nat
  = fields_after c1 (fields_after c2 b [] 0%nat) [] 0%nat.
Proof.
  intros H1 H2 Hp1 Hp2 Hne.
  destruct c1; try discriminate H1; injection H1 as <-;
    destruct c2; try discriminate H2; injection H2 as <-;
    try contradiction; destruct b; cbn;
    repeat match goal with
      | |- context [Nat.eqb ?n 0] => destruct (Nat.eqb n 0)
      end; reflexivity.
Qed.

Lemma fields_after_parameters_same (c : call V) f b :
  written_field c = Some f ->
  parameters (fields_after c b [] 0%nat) = parameters b.
Proof.
  intros Hf. destruct c; try discriminate Hf; cbn;
    repeat match goal with
      | |- context [Nat.eqb ?n 0] => destruct (Nat.eqb n 0)
      end; reflexivity.
Qed.

Lemma update_fields_setParameter f this name value (h : heap V) :
  (forall b, parameters (f b) = parameters b) ->
  (update_fields f this ;;; setParameter this name value) h
  = (setParameter this name value ;;; update_fields f this) h.
Proof.
  intros Hp. unfold bind. rewrite setParameter_run. unfold update_fields at 1.
  destruct (builders h !! this) as [b|] eqn:Hb; [|reflexivity].
  rewrite setParameter_run. cbn [builders objects].
  rewrite list_lookup_insert_eq by (eapply lookup_lt_Some; exact Hb).
  rewrite Hp.
  destruct (objects h !! parameters b) as [o|]; [|reflexivity].
  unfold update_fields. cbn [builders objects]. rewrite Hb. reflexivity.
Qed.

End Commute.

(** X5.  Two calls that write different fields of the builder can be made
    in either order: the store is the same, and so is every later text and
    parameter mapping. *)
Theorem calls_on_different_fields_commute :
  forall (V : Type) (h : heap V) (this : loc) (c1 c2 : call V)
         (f1 f2 : field),
    written_field c1 = Some f1 ->
    written_field c2 = Some f2 ->
    f1 <> f2 ->
    (call_on c1 this ;;; call_on c2 this) h
    = (call_on c2 this ;;; call_on c1 this) h.
Proof.
  intros V h this c1 c2 f1 f2 H1 H2 Hne.
  assert (Hbind : forall (m m' : M V loc) (k : M V loc) h0,
             m h0 = m' h0 -> (m ;;; k) h0 = (m' ;;; k) h0)
    by (intros m m' k h0 E; unfold bind; rewrite E; reflexivity).
  assert (Hbind2 : forall (m : M V loc) (k k' : M V loc) h0,
             (forall h1, k h1 = k' h1) -> (m ;;; k) h0 = (m ;;; k') h0)
    by (intros m k k' h0 E; unfold bind; destruct (m h0) as [[? ?]|];
        [apply E|reflexivity]).
  assert (D : forall f, {f = FParameters} + {f <> FParameters})
    by (intros []; (left; reflexivity) || (right; discriminate)).
  destruct (D f1) as [->|Hp1]; destruct (D f2) as [->|Hp2];
    [contradiction| | |].
  - destruct c1; try discriminate H1. cbn [call_on].
    rewrite (Hbind2 _ (call_on c2 this)
               (update_fields (fun b => fields_after c2 b [] 0%nat) this))
      by (intros; apply (field_call_run c2 f2); assumption).
    rewrite (Hbind (call_on c2 this)
               (update_fields (fun b => fields_after c2 b [] 0%nat) this))
      by (apply (field_call_run c2 f2); assumption).
    symmetry. apply update_fields_setParameter.
    intros b. apply (fields_after_parameters_same c2 f2), H2.
  - destruct c2; try discriminate H2. cbn [call_on].
    rewrite (Hbind (call_on c1 this)
               (update_fields (fun b => fields_after c1 b [] 0%nat) this))
      by (apply (field_call_run c1 f1); assumption).
    rewrite (Hbind2 _ (call_on c1 this)
               (update_fields (fun b => fields_after c1 b [] 0%nat) this))
      by (intros; apply (field_call_run c1 f1); assumption).
    apply update_fields_setParameter.
    intros b. apply (fields_after_parameters_same c1 f1), H1.
  - rewrite (Hbind (call_on c1 this)
               (update_fields (fun b => fields_after c1 b [] 0%nat) this))
      by (apply (field_call_run c1 f1); assumption).
    rewrite (Hbind2 _ (call_on c2 this)
               (update_fields (fun b => fields_after c2 b [] 0%nat) this))
      by (intros; apply (field_call_run c2 f2); assumption).
    rewrite (Hbind (call_on c2 this)
               (update_fields (fun b => fields_after c2 b [] 0%nat) this))
      by (apply (field_call_run c2 f2); assumption).
    rewrite (Hbind2 _ (call_on c1 this)
               (update_fields (fun b => fields_after c1 b [] 0%nat) this))
      by (intros; apply (field_call_run c1 f1); assumption).
    rewrite !update_fields_twice. apply update_fields_ext.
    intros b. apply (fields_after_commute c1 c2 f1 f2); assumption.
Qed.

(** ** Chains of WHERE conditions *)





(** ** The text after a union *)

Lemma render_union_fields keyword A B p :
  render (union_fields keyword A B p)
  = union_entry keyword (render A) (render B).
Proof.
  unfold render, build_parts.
  cbn [union_fields matchClauses whereClauses withClauses returnClause
         orderByClause skipValue limitValue app].
  cbn [List.filter].
  replace (Boolean (union_entry keyword (render A) (render B))) with true.
  - reflexivity.
  - unfold union_entry. rewrite Boolean_app.
    change (Boolean (nl +:+ keyword +:+ nl +:+ render B)) with true.
    rewrite orb_true_r. reflexivity.
Qed.

Lemma lines_union_entry keyword a b :
  has_newline keyword = false ->
  lines (union_entry keyword a b) = lines a ++ [keyword] ++ lines b.
Proof.
  intros Hk. unfold union_entry.
  rewrite !lines_app_nl, (lines_no_newline _ Hk). reflexivity.
Qed.

(** X7.  Right after [A.union(B)], [A.build()] is the text A had, a line
    [UNION], and the text B has; its lines are the lines of the one, the
    keyword, and the lines of the other.  Likewise for [unionAll] and
    [UNION ALL].  This holds for [A.union(A)] too. *)
Theorem build_after_union :
  forall (V : Type) (h : heap V) (this otherQuery : loc)
         (A B : QueryBuilder) (o : gmap string V),
    builders h !! this = Some A ->
    builders h !! otherQuery = Some B ->
    objects h !! parameters B = Some o ->
    (exists h1 text,
        union this otherQuery h = Some (this, h1)
        /\ build this h1 = Some (text, h1)
        /\ text = render A +:+ nl +:+ "UNION" +:+ nl +:+ render B
        /\ lines text = lines (render A) ++ ["UNION"] ++ lines (render B))
    /\ (exists h1 text,
          unionAll this otherQuery h = Some (this, h1)
          /\ build this h1 = Some (text, h1)
          /\ text = render A +:+ nl +:+ "UNION ALL" +:+ nl +:+ render B
          /\ lines text
             = lines (render A) ++ ["UNION ALL"] ++ lines (render B)).
Proof.
  intros V h this otherQuery A B o HA HB Ho.
  pose proof (lookup_lt_Some _ _ _ HA) as Hlt.
  split; eexists _, _.
  - split; [apply (union_run _ _ _ _ _ _ HA HB Ho)|]. cbn zeta.
    split; [rewrite build_run; cbn [builders];
            rewrite list_lookup_insert_eq by exact Hlt; reflexivity|].
    rewrite render_union_fields. split; [reflexivity|].
    apply lines_union_entry. reflexivity.
  - split; [apply (unionAll_run _ _ _ _ _ _ HA HB Ho)|]. cbn zeta.
    split; [rewrite build_run; cbn [builders];
            rewrite list_lookup_insert_eq by exact Hlt; reflexivity|].
    rewrite render_union_fields. split; [reflexivity|].
    apply lines_union_entry. reflexivity.
Qed.

(** X8.  Unions nest to the left and keep the parameters of the last
    builder only: after [A.union(B).union(C)], with B and C other builders
    than A, the single entry of A is [(A UNION B) UNION C] and the parameter
    map of A has the content of C's; what A and B held as parameters is not
    in it unless C holds it too. *)
Theorem union_twice :
  forall (V : Type) (h : heap V) (this other1 other2 : loc)
         (A B C : QueryBuilder) (oB oC : gmap string V),
    this <> other1 -> this <> other2 ->
    builders h !! this = Some A ->
    builders h !! other1 = Some B ->
    builders h !! other2 = Some C ->
    objects h !! parameters B = Some oB ->
    objects h !! parameters C = Some oC ->
    exists (h2 : heap V) (A2 : QueryBuilder),
      (union this other1 ;;; union this other2) h = Some (this, h2)
      /\ builders h2 !! this = Some A2
      /\ matchClauses A2
         = [(render A +:+ nl +:+ "UNION" +:+ nl +:+ render B)
              +:+ nl +:+ "UNION" +:+ nl +:+ render C]
      /\ objects h2 !! parameters A2 = Some oC
      /\ render A2
         = (render A +:+ nl +:+ "UNION" +:+ nl +:+ render B)
             +:+ nl +:+ "UNION" +:+ nl +:+ render C.
Proof.
  intros V h this other1 other2 A B C oB oC Hn1 Hn2 HA HB HC HoB HoC.
  pose proof (lookup_lt_Some _ _ _ HA) as Hlt.
  pose proof (union_run _ _ _ _ _ _ HA HB HoB) as H1. cbn zeta in H1.
  rewrite decide_False in H1 by exact Hn1.
  rewrite (bind_eq _ _ _ _ _ H1).
  match type of H1 with _ = Some (_, ?x) => set (h1 := x) in * end.
  assert (HA1 : builders h1 !! this
                = Some (union_fields "UNION" A B (length (objects h))))
    by (apply list_lookup_insert_eq; exact Hlt).
  assert (HC1 : builders h1 !! other2 = Some C)
    by (subst h1; cbn [builders];
        rewrite list_lookup_insert_ne by exact Hn2; exact HC).
  assert (HoC1 : objects h1 !! parameters C = Some oC)
    by (apply lookup_app_l_Some; exact HoC).
  pose proof (union_run _ _ _ _ _ _ HA1 HC1 HoC1) as H2. cbn zeta in H2.
  rewrite decide_False in H2 by exact Hn2.
  eexists _, _. split; [exact H2|]. cbn [builders objects].
  split; [apply list_lookup_insert_eq; subst h1; cbn [builders];
          rewrite length_insert; exact Hlt|].
  cbn [union_fields matchClauses parameters].
  rewrite render_union_fields.
  split; [reflexivity|].
  split; [apply lookup_snoc2_fst|].
  change (render (union_fields "UNION" (union_fields "UNION" A B (length (objects h))) C
                    (length (objects h1)))
          = union_entry "UNION" (union_entry "UNION" (render A) (render B)) (render C)).
  rewrite !render_union_fields. reflexivity.
Qed.

(** ** Subqueries in general *)

Lemma subquery_general_run {V : Type} (h : heap V) this
    (callback : loc -> M V unit) h2 sb b s t :
  (this < length (builders h))%nat ->
  callback (length (builders h))
    (mkHeap (builders h ++ [empty_fields (length (objects h))])
       (objects h ++ [∅]))
  = Some (tt, h2) ->
  builders h2 !! length (builders h) = Some sb ->
  builders h2 !! this = Some b ->
  objects h2 !! parameters sb = Some s ->
  objects h2 !! parameters b = Some t ->
  subquery this callback h
  = Some (this,
          mkHeap
            (<[this := set_matchClauses
                         (matchClauses b ++ ["(" +:+ render sb +:+ ")"]) b]>
               (builders h2))
            (<[parameters b := s ∪ t]> (objects h2 ++ [s]))).
Proof.
  intros Hlt Hcb Hsb Hb Hs Ht.
  pose proof (lookup_lt_Some _ _ _ Hb) as Hlt2.
  unfold subquery.
  erewrite bind_eq by apply new_QueryBuilder_run.
  erewrite bind_eq by exact Hcb.
  erewrite bind_eq by (rewrite build_run, Hsb; reflexivity).
  erewrite bind_eq by (apply get_fields_eq; exact Hb).
  erewrite bind_eq by (eapply put_fields_eq; exact Hb).
  erewrite bind_eq
    by (apply get_fields_eq; cbn [builders];
        apply list_lookup_insert_eq; exact Hlt2).
  erewrite bind_eq.
  2:{ rewrite getParameters_run. cbn [builders objects].
      rewrite list_lookup_insert_ne by lia. rewrite Hsb, Hs. reflexivity. }
  erewrite bind_eq.
  2:{ apply (Object_assign_run _ _ _ t s);
        cbn [objects parameters set_matchClauses].
      - apply lookup_app_l_Some, Ht.
      - apply lookup_snoc. }
  reflexivity.
Qed.


(** ** Invariants of every reachable store *)

Lemma any_call_checked {V : Type} (c : call V) :
  forall this (h : heap V), checked_call any_call c this h = true.
Proof.
  induction c as [c Hflat|callback IH] using call_nested_ind; intros this h.
  - destruct c; try discriminate Hflat; reflexivity.
  - rewrite checked_call_Subquery.
    generalize (length (builders h)) as subBuilder.
    generalize (mkHeap (builders h ++ [empty_fields (length (objects h))])
                  (objects h ++ [∅])) as h1.
    induction IH as [|c cs Hc _ IHcs]; intros h1 subBuilder; [reflexivity|].
    rewrite checked_chain_cons, Hc. cbn [andb].
    destruct (call_on c subBuilder h1) as [[r h2]|]; [apply IHcs|reflexivity].
Qed.

Lemma any_call_checked_run {V : Type} (p : list (stmt V)) :
  forall h : heap V, checked_run any_call p h = true.
Proof.
  induction p as [|s p IH]; intros h; [reflexivity|].
  cbn [checked_run].
  replace (checked_stmt any_call s h) with true
    by (destruct s; cbn [checked_stmt]; rewrite ?any_call_checked; reflexivity).
  cbn [andb]. destruct (exec s h) as [[u h1]|]; [apply IH|reflexivity].
Qed.

Lemma entries_nonempty_iff b :
  entries_nonempty b <->
  Forall (fun f => Boolean f = true) (matchClauses b)
  /\ Forall (fun f => Boolean f = true) (whereClauses b)
  /\ Forall (fun f => Boolean f = true) (withClauses b).
Proof. unfold entries_nonempty, buffer_entries. rewrite !Forall_app. tauto. Qed.

Lemma entries_nonempty_flat {V : Type} (c : call V) this (h : heap V) b :
  is_subquery c = false ->
  any_call c this h = true ->
  Forall entries_nonempty (builders h) ->
  builders h !! this = Some b ->
  entries_nonempty (fields_after c b (builders h) (length (objects h))).
Proof.
  intros Hflat _ Hall Hb.
  pose proof (proj1 (Forall_lookup _ _) Hall _ _ Hb) as Ht.
  pose proof Ht as Ht'. apply entries_nonempty_iff in Ht' as (Hm & Hw & Hwi).
  assert (Hu : forall kw A B p, entries_nonempty (union_fields kw A B p)).
  { intros kw A B p. apply entries_nonempty_iff.
    cbn [union_fields matchClauses whereClauses withClauses].
    repeat split; try constructor; try constructor.
    unfold union_entry. rewrite Boolean_app.
    change (Boolean (nl +:+ kw +:+ nl +:+ render B)) with true.
    apply orb_true_r. }
  destruct c; try discriminate Hflat; cbn [fields_after];
    try exact Ht;
    try match goal with
        | |- context [Nat.eqb ?n 0] => destruct (Nat.eqb n 0)
        end;
    try (apply entries_nonempty_iff;
         cbn [set_matchClauses set_whereClauses set_withClauses
                set_returnClause set_orderByClause set_skipValue
                set_limitValue matchClauses whereClauses withClauses];
         repeat split; try assumption;
         apply Forall_app; split; [assumption|];
         constructor; [reflexivity|constructor]).
  - apply entries_nonempty_iff. repeat split; constructor.
  - destruct (builders h !! otherQuery); [apply Hu|exact Ht].
  - destruct (builders h !! otherQuery); [apply Hu|exact Ht].
Qed.

Lemma entries_nonempty_subquery b sb :
  entries_nonempty b -> entries_nonempty sb ->
  entries_nonempty
    (set_matchClauses (matchClauses b ++ ["(" +:+ render sb +:+ ")"]) b).
Proof.
  intros Hb _. apply entries_nonempty_iff in Hb as (Hm & Hw & Hwi).
  apply entries_nonempty_iff.
  cbn [set_matchClauses matchClauses whereClauses withClauses].
  repeat split; try assumption.
  apply Forall_app. split; [exact Hm|]. constructor; [reflexivity|constructor].
Qed.

Lemma reachable_entries_nonempty {V : Type} (h : heap V) this b :
  reachable h -> builders h !! this = Some b -> entries_nonempty b.
Proof.
  intros [p Hrun] Hb.
  apply (checked_reachable entries_nonempty any_call
           (fun p0 => proj2 (entries_nonempty_iff (empty_fields p0))
                        (conj (Forall_nil_2 _)
                           (conj (Forall_nil_2 _) (Forall_nil_2 _))))
           entries_nonempty_flat entries_nonempty_subquery
           p h this b (any_call_checked_run p empty_heap) Hrun Hb).
Qed.

Lemma filter_Boolean_nil l :
  List.filter Boolean l = [] <-> Forall (fun f => f = EmptyString) l.
Proof.
  induction l as [|x l IH]; simpl; [split; [constructor|reflexivity]|].
  destruct x as [|c x]; simpl.
  - rewrite IH. split; [intros H; constructor; [reflexivity|exact H]|].
    intros H. exact (Forall_inv_tail H).
  - split; [discriminate|]. intros H. apply Forall_inv in H. discriminate.
Qed.

Lemma join_empty l :
  Forall (fun f => Boolean f = true) l -> join nl l = EmptyString -> l = [].
Proof.
  intros Hl Hj. destruct l as [|x xs]; [reflexivity|].
  pose proof (Boolean_join_cons x xs (Forall_inv Hl)) as Hb.
  rewrite Hj in Hb. discriminate.
Qed.

(** X10.  In every store a client can reach, no buffer holds an empty
    entry, so [build] drops none of them: the elements it joins are the
    three buffers in full, the slots that are set, and the pagination
    lines. *)
Theorem build_keeps_every_entry :
  forall (V : Type) (h : heap V) (this : loc) (b : QueryBuilder),
    reachable h ->
    builders h !! this = Some b ->
    Forall (fun f => f <> EmptyString) (buffer_entries b)
    /\ List.filter Boolean (build_parts b)
       = matchClauses b ++ whereClauses b ++ withClauses b
           ++ List.filter Boolean [returnClause b; orderByClause b]
           ++ pagination_parts b.
Proof.
  intros V h this b Hreach Hb.
  pose proof (reachable_entries_nonempty h this b Hreach Hb) as Hne.
  split.
  - eapply List.Forall_impl; [|exact Hne]. intros f Hf ->. discriminate.
  - rewrite build_parts_split. unfold stored_fragments.
    rewrite !app_assoc, !List.filter_app, <- !app_assoc.
    apply entries_nonempty_iff in Hne as (Hm & Hw & Hwi).
    rewrite (filter_Boolean_id _ Hm), (filter_Boolean_id _ Hw),
      (filter_Boolean_id _ Hwi).
    do 4 f_equal. apply filter_Boolean_id.
    unfold pagination_parts. apply Forall_app.
    split; [destruct (skipValue b)|destruct (limitValue b)];
      repeat constructor.
Qed.

(** X11.  In every store a client can reach, [build] returns the empty
    text exactly for a builder nothing was added to: empty buffers, unset
    slots, unset pagination values. *)
Theorem build_empty_iff_nothing_added :
  forall (V : Type) (h : heap V) (this : loc) (b : QueryBuilder),
    reachable h ->
    builders h !! this = Some b ->
    (render b = EmptyString <-> nothing_added b).
Proof.
  intros V h this b Hreach Hb.
  pose proof (reachable_entries_nonempty h this b Hreach Hb) as Hne.
  unfold nothing_added. split.
  - intros Hr. unfold render in Hr. apply join_empty in Hr.
    2:{ apply List.Forall_forall. intros f Hf. apply filter_In in Hf. tauto. }
    apply filter_Boolean_nil in Hr. rewrite build_parts_split in Hr.
    apply Forall_app in Hr as [Hst Hpg]. unfold stored_fragments in Hst.
    apply Forall_app in Hst as [Hm Hst]. apply Forall_app in Hst as [Hw Hst].
    apply Forall_app in Hst as [Hwi Hst].
    apply entries_nonempty_iff in Hne as (Hm' & Hw' & Hwi').
    assert (Hnil : forall l, Forall (fun f => Boolean f = true) l ->
                             Forall (fun f => f = EmptyString) l -> l = []).
    { intros [|x l] H1 H2; [reflexivity|].
      apply Forall_inv in H1, H2. subst x. discriminate. }
    repeat split; try (apply Hnil; assumption).
    + exact (Forall_inv Hst).
    + exact (Forall_inv (Forall_inv_tail Hst)).
    + unfold pagination_parts in Hpg. destruct (skipValue b); [|reflexivity].
      apply Forall_inv in Hpg. discriminate.
    + unfold pagination_parts in Hpg. destruct (limitValue b); [|reflexivity].
      apply Forall_app in Hpg as [_ Hpg]. apply Forall_inv in Hpg. discriminate.
  - intros (Hm & Hw & Hwi & Hr & Ho & Hs & Hl).
    unfold render, build_parts. rewrite Hm, Hw, Hwi, Hr, Ho, Hs, Hl.
    reflexivity.
Qed.

Lemma where_shaped_snoc b x :
  where_buffer_shaped b ->
  where_token x = true ->
  (whereClauses b = [] -> starts_with "WHERE " x = true) ->
  where_buffer_shaped (set_whereClauses (whereClauses b ++ [x]) b).
Proof.
  unfold where_buffer_shaped. cbn [whereClauses set_whereClauses].
  destruct (whereClauses b) as [|w ws]; intros Hs Hx Hfirst.
  - split; [apply Hfirst; reflexivity|constructor].
  - destruct Hs as [Hw Hws]. split; [exact Hw|].
    apply Forall_app. split; [exact Hws|]. constructor; [exact Hx|constructor].
Qed.

Lemma where_shaped_flat {V : Type} (c : call V) this (h : heap V) b :
  is_subquery c = false ->
  any_call c this h = true ->
  Forall where_buffer_shaped (builders h) ->
  builders h !! this = Some b ->
  where_buffer_shaped (fields_after c b (builders h) (length (objects h))).
Proof.
  intros Hflat _ Hall Hb.
  pose proof (proj1 (Forall_lookup _ _) Hall _ _ Hb) as Ht.
  destruct c; try discriminate Hflat; cbn [fields_after];
    try exact Ht; try exact I.
  - apply where_shaped_snoc; [exact Ht|reflexivity|reflexivity].
  - destruct (Nat.eqb (length (whereClauses b)) 0) eqn:E;
      apply where_shaped_snoc; try exact Ht; try reflexivity.
    intros Hnil. rewrite Hnil in E. discriminate.
  - destruct (Nat.eqb (length (whereClauses b)) 0) eqn:E;
      apply where_shaped_snoc; try exact Ht; try reflexivity.
    intros Hnil. rewrite Hnil in E. discriminate.
  - destruct (builders h !! otherQuery); [exact I|exact Ht].
  - destruct (builders h !! otherQuery); [exact I|exact Ht].
Qed.

(** X12.  In every store a client can reach, a WHERE buffer that is not
    empty begins with a [WHERE] fragment, and every fragment after it
    begins with [WHERE], [AND] or [OR]: no text starts its conditions with
    a dangling [AND] or [OR]. *)
Theorem where_buffer_begins_with_where :
  forall (V : Type) (h : heap V) (this : loc) (b : QueryBuilder),
    reachable h ->
    builders h !! this = Some b ->
    where_buffer_shaped b.
Proof.
  intros V h this b [p Hrun] Hb.
  apply (checked_reachable where_buffer_shaped any_call
           (fun _ => I) where_shaped_flat (fun b0 sb H _ => H)
           p h this b (any_call_checked_run p empty_heap) Hrun Hb).
Qed.

(** ** Every builder has its own parameter map *)

Section OwnParameters.

Context {V : Type}.

Lemma fields_after_parameters (c : call V) b bs p :
  parameters (fields_after c b bs p) = parameters b
  \/ parameters (fields_after c b bs p) = p.
Proof.
  destruct c; cbn [fields_after];
    repeat match goal with
      | |- context [Nat.eqb ?n 0] => destruct (Nat.eqb n 0)
      | |- context [bs !! ?o] => destruct (bs !! o)
      end; auto.
Qed.

Lemma own_parameters_insert (bs : list QueryBuilder)
    (os os' : list (gmap string V)) this b b' :
  well_formed (mkHeap bs os) ->
  own_parameters (mkHeap bs os) ->
  bs !! this = Some b ->
  parameters b' = parameters b \/ (length os <= parameters b')%nat ->
  own_parameters (mkHeap (<[this := b']> bs) os').
Proof.
  unfold own_parameters, well_formed. cbn [builders objects].
  intros Hwf Hown Hb Hp i j bi bj Hi Hj Heq.
  pose proof (lookup_lt_Some _ _ _ Hb) as Hlt.
  destruct (decide (i = this)) as [->|Hi'];
    destruct (decide (j = this)) as [->|Hj']; [reflexivity| | |].
  - rewrite list_lookup_insert_eq in Hi by exact Hlt. injection Hi as <-.
    rewrite list_lookup_insert_ne in Hj by congruence.
    destruct Hp as [Hp|Hp].
    + apply (Hown this j b bj Hb Hj). congruence.
    + pose proof (proj1 (Forall_lookup _ _) Hwf _ _ Hj) as Hlj.
      cbn beta in Hlj. lia.
  - rewrite list_lookup_insert_eq in Hj by exact Hlt. injection Hj as <-.
    rewrite list_lookup_insert_ne in Hi by congruence.
    destruct Hp as [Hp|Hp].
    + apply (Hown i this bi b Hi Hb). congruence.
    + pose proof (proj1 (Forall_lookup _ _) Hwf _ _ Hi) as Hli.
      cbn beta in Hli. lia.
  - rewrite list_lookup_insert_ne in Hi by congruence.
    rewrite list_lookup_insert_ne in Hj by congruence.
    exact (Hown i j bi bj Hi Hj Heq).
Qed.

Lemma own_parameters_builders (h h' : heap V) :
  builders h' = builders h -> own_parameters h -> own_parameters h'.
Proof. unfold own_parameters. intros ->. auto. Qed.

Lemma own_parameters_new (h : heap V) :
  well_formed h -> own_parameters h ->
  own_parameters
    (mkHeap (builders h ++ [empty_fields (length (objects h))])
       (objects h ++ [∅])).
Proof.
  unfold own_parameters, well_formed. cbn [builders].
  intros Hwf Hown i j bi bj Hi Hj Heq.
  apply lookup_app_Some in Hi as [Hi|[Hi1 Hi2]];
    apply lookup_app_Some in Hj as [Hj|[Hj1 Hj2]].
  - exact (Hown i j bi bj Hi Hj Heq).
  - apply list_lookup_singleton_Some in Hj2 as [_ <-].
    pose proof (proj1 (Forall_lookup _ _) Hwf _ _ Hi) as Hli.
    cbn beta in Hli. cbn [parameters empty_fields] in Heq. lia.
  - apply list_lookup_singleton_Some in Hi2 as [_ <-].
    pose proof (proj1 (Forall_lookup _ _) Hwf _ _ Hj) as Hlj.
    cbn beta in Hlj. cbn [parameters empty_fields] in Heq. lia.
  - apply list_lookup_singleton_Some in Hi2 as [Hi2 _].
    apply list_lookup_singleton_Some in Hj2 as [Hj2 _]. lia.
Qed.

Lemma flat_call_sound (c : call V) this (h : heap V) r h' :
  is_subquery c = false ->
  call_on c this h = Some (r, h') ->
  parameters_sound h -> parameters_sound h'.
Proof.
  intros Hflat Hrun [Hwf Hown].
  split; [exact (flat_call_well_formed c this h r h' Hflat Hrun Hwf)|].
  apply flat_call_builders in Hrun as (_ & b & Hb & Hbs); [|exact Hflat].
  destruct h as [bs os], h' as [bs' os']. cbn [builders objects] in *.
  subst bs'. apply (own_parameters_insert bs os os' this b); try assumption.
  destruct (fields_after_parameters c b bs (length os)) as [E|E]; [auto|].
  right. lia.
Qed.

Lemma chain_sound cs :
  Forall (fun c => forall this (h : heap V) r h',
              call_on c this h = Some (r, h') ->
              parameters_sound h -> parameters_sound h') cs ->
  forall this (h : heap V) u h',
    chain_on cs this h = Some (u, h') ->
    parameters_sound h -> parameters_sound h'.
Proof.
  induction 1 as [|c cs Hc _ IH]; intros this h u h' Hrun Hs.
  - rewrite chain_on_nil in Hrun. injection Hrun as _ <-. exact Hs.
  - rewrite chain_on_cons in Hrun.
    apply bind_Some in Hrun as (r & h1 & Hcall & Hrun).
    exact (IH this h1 u h' Hrun (Hc this h r h1 Hcall Hs)).
Qed.

Lemma call_sound (c : call V) :
  forall this (h : heap V) r h',
    call_on c this h = Some (r, h') ->
    parameters_sound h -> parameters_sound h'.
Proof.
  induction c as [c Hflat|callback IH] using call_nested_ind;
    intros this h r h' Hrun Hs.
  - exact (flat_call_sound c this h r h' Hflat Hrun Hs).
  - split; [exact (call_well_formed _ this h r h' Hrun (proj1 Hs))|].
    rewrite call_on_Subquery in Hrun.
    apply subquery_builders in Hrun as (_ & h2 & sb & b & Hcb & _ & Hb & Hbs).
    destruct Hs as [Hwf Hown].
    destruct (chain_sound callback IH _ _ _ _ Hcb
                (conj (new_QueryBuilder_well_formed h Hwf)
                   (own_parameters_new h Hwf Hown))) as [Hwf2 Hown2].
    destruct h2 as [bs2 os2], h' as [bs' os']. cbn [builders objects] in *.
    subst bs'. apply (own_parameters_insert bs2 os2 os' this b); auto.
Qed.

Lemma run_sound (p : list (stmt V)) :
  forall (h : heap V) u h',
    run p h = Some (u, h') -> parameters_sound h -> parameters_sound h'.
Proof.
  induction p as [|s p IH]; intros h u h' Hrun Hs.
  - injection Hrun as _ <-. exact Hs.
  - cbn [run] in Hrun. apply bind_Some in Hrun as (v & h1 & Hst & Hrun).
    apply (IH h1 u h' Hrun).
    destruct s as [|this c|this|this]; cbn [exec] in Hst;
      apply bind_Some in Hst as (r & h0 & Hst & Hret);
      injection Hret as _ <-.
    + rewrite new_QueryBuilder_run in Hst. injection Hst as _ <-.
      destruct Hs as [Hwf Hown].
      split; [apply new_QueryBuilder_well_formed, Hwf
             |apply own_parameters_new; assumption].
    + exact (call_sound c this h r h0 Hst Hs).
    + rewrite build_run in Hst.
      destruct (builders h !! this); [|discriminate].
      injection Hst as _ <-. exact Hs.
    + destruct Hs as [Hwf Hown]. rewrite getParameters_run in Hst.
      destruct (builders h !! this) as [b|]; [|discriminate].
      destruct (objects h !! parameters b); [|discriminate].
      injection Hst as _ <-. destruct h as [bs os].
      cbn [builders objects] in *. split.
      * apply (well_formed_grow bs os); [|exact Hwf]. rewrite length_app. lia.
      * exact Hown.
Qed.

End OwnParameters.

(** X13.  In every store a client can reach, each builder has a parameter
    map that exists and that no other builder shares: [getParameters]
    always has a map to copy, and a builder's parameters are its own. *)
Theorem builders_own_their_parameters :
  forall (V : Type) (h : heap V) (this other : loc) (b B : QueryBuilder),
    reachable h ->
    builders h !! this = Some b ->
    builders h !! other = Some B ->
    (exists o r h', objects h !! parameters b = Some o
                    /\ getParameters this h = Some (r, h')
                    /\ objects h' !! r = Some o)
    /\ (this <> other -> parameters b <> parameters B).
Proof.
  intros V h this other b B [p Hrun] Hb HB.
  assert (Hs : parameters_sound h).
  { apply (run_sound p empty_heap tt h Hrun). split.
    - constructor.
    - intros i j bi bj Hi. discriminate Hi. }
  destruct Hs as [Hwf Hown]. split.
  - destruct (well_formed_lookup h this b Hwf Hb) as [o Ho].
    exists o. eexists _, _. split; [exact Ho|].
    rewrite getParameters_run, Hb, Ho. split; [reflexivity|].
    cbn [objects]. apply lookup_snoc.
  - intros Hne Heq. apply Hne. exact (Hown this other b B Hb HB Heq).
Qed.

(** ** A call on one builder leaves the others alone *)

Section Frame.

Context {V : Type}.

Lemma call_frame_refl this b (h : heap V) :
  builders h !! this = Some b -> call_frame this b h h.
Proof.
  intros Hb. unfold call_frame. repeat split; try lia; try reflexivity.
  exists b. auto.
Qed.

Lemma call_frame_trans this b b1 (h h1 h2 : heap V) :
  call_frame this b h h1 ->
  builders h1 !! this = Some b1 ->
  call_frame this b1 h1 h2 ->
  call_frame this b h h2.
Proof.
  intros (Hl1 & Ho1 & Hlo1 & Hq1 & b1' & Hb1' & Hp1) Hb1
         (Hl2 & Ho2 & Hlo2 & Hq2 & b2 & Hb2 & Hp2).
  rewrite Hb1 in Hb1'. injection Hb1' as <-.
  unfold call_frame. repeat split.
  - lia.
  - intros other Hne Hlt. rewrite Ho2 by (auto; lia). apply Ho1; assumption.
  - lia.
  - intros q Hq Hne. rewrite Hq2; [apply Hq1; assumption|lia|].
    destruct Hp1 as [Hp1|Hp1]; [congruence|lia].
  - exists b2. split; [exact Hb2|].
    destruct Hp2 as [Hp2|Hp2]; [|right; lia].
    destruct Hp1 as [Hp1|Hp1]; [left; congruence|right; lia].
Qed.

Lemma flat_call_objects (c : call V) this (h : heap V) r h' b :
  is_subquery c = false ->
  well_formed h ->
  call_on c this h = Some (r, h') ->
  builders h !! this = Some b ->
  (length (objects h) <= length (objects h'))%nat
  /\ (forall q, (q < length (objects h))%nat -> q <> parameters b ->
        objects h' !! q = objects h !! q).
Proof.
  intros Hflat Hwf H Hb. destruct c; try discriminate Hflat; cbn [call_on] in H;
    rewrite ?match_run, ?optionalMatch_run, ?where_run, ?andWhere_run,
      ?orWhere_run, ?with_run, ?return_run, ?orderBy_run, ?skip_run,
      ?limit_run in H;
    try (apply update_fields_Some in H as (_ & _ & _ & _ & ->);
         split; [lia|reflexivity]).
  - rewrite setParameter_run, Hb in H.
    destruct (objects h !! parameters b); [|discriminate].
    injection H as _ <-. cbn [objects]. rewrite length_insert.
    split; [lia|]. intros q _ Hne. apply list_lookup_insert_ne. congruence.
  - rewrite clear_run, Hb in H. injection H as _ <-. cbn [objects].
    rewrite length_app. split; [lia|].
    intros q Hq _. apply lookup_app_l. exact Hq.
  - pose proof H as H'.
    apply union_builders in H' as (_ & A & B & HA & HB & _).
    destruct (well_formed_lookup h _ B Hwf HB) as [o Ho].
    rewrite (union_run _ _ _ _ _ _ HA HB Ho) in H. cbn zeta in H.
    injection H as _ <-. cbn [objects]. rewrite length_app.
    split; [lia|]. intros q Hq _. apply lookup_app_l. exact Hq.
  - pose proof H as H'.
    apply unionAll_builders in H' as (_ & A & B & HA & HB & _).
    destruct (well_formed_lookup h _ B Hwf HB) as [o Ho].
    rewrite (unionAll_run _ _ _ _ _ _ HA HB Ho) in H. cbn zeta in H.
    injection H as _ <-. cbn [objects]. rewrite length_app.
    split; [lia|]. intros q Hq _. apply lookup_app_l. exact Hq.
Qed.

Lemma flat_call_frame (c : call V) this (h : heap V) r h' b :
  is_subquery c = false ->
  well_formed h ->
  call_on c this h = Some (r, h') ->
  builders h !! this = Some b ->
  call_frame this b h h'.
Proof.
  intros Hflat Hwf H Hb.
  destruct (flat_call_objects c this h r h' b Hflat Hwf H Hb) as [Hlo Hq].
  apply flat_call_builders in H as (_ & b0 & Hb0 & Hbs); [|exact Hflat].
  rewrite Hb in Hb0. injection Hb0 as <-.
  pose proof (lookup_lt_Some _ _ _ Hb) as Hlt.
  unfold call_frame. rewrite Hbs. repeat split.
  - rewrite length_insert. lia.
  - intros other Hne _. apply list_lookup_insert_ne. congruence.
  - exact Hlo.
  - exact Hq.
  - eexists. split; [apply list_lookup_insert_eq; exact Hlt|].
    destruct (fields_after_parameters c b (builders h) (length (objects h)))
      as [E|E]; [left; exact E|right; lia].
Qed.

Lemma chain_frame cs :
  Forall (fun c => forall this (h : heap V) r h' b,
              well_formed h ->
              call_on c this h = Some (r, h') ->
              builders h !! this = Some b ->
              call_frame this b h h') cs ->
  forall this (h : heap V) u h' b,
    well_formed h ->
    chain_on cs this h = Some (u, h') ->
    builders h !! this = Some b ->
    call_frame this b h h'.
Proof.
  induction 1 as [|c cs Hc _ IH]; intros this h u h' b Hwf Hrun Hb.
  - rewrite chain_on_nil in Hrun. injection Hrun as _ <-.
    apply call_frame_refl, Hb.
  - rewrite chain_on_cons in Hrun.
    apply bind_Some in Hrun as (r & h1 & Hcall & Hrun).
    pose proof (Hc this h r h1 b Hwf Hcall Hb) as Hf1.
    pose proof Hf1 as (_ & _ & _ & _ & b1 & Hb1 & _).
    pose proof (call_well_formed c this h r h1 Hcall Hwf) as Hwf1.
    exact (call_frame_trans this b b1 h h1 h'
             Hf1 Hb1 (IH this h1 u h' b1 Hwf1 Hrun Hb1)).
Qed.

Lemma call_frame_holds (c : call V) :
  forall this (h : heap V) r h' b,
    well_formed h ->
    call_on c this h = Some (r, h') ->
    builders h !! this = Some b ->
    call_frame this b h h'.
Proof.
  induction c as [c Hflat|callback IH] using call_nested_ind;
    intros this h r h' b Hwf Hrun Hb.
  - exact (flat_call_frame c this h r h' b Hflat Hwf Hrun Hb).
  - pose proof (lookup_lt_Some _ _ _ Hb) as Hlt.
    rewrite call_on_Subquery in Hrun. unfold subquery in Hrun.
    apply bind_Some in Hrun as (sub & h1 & Hnew & Hrun).
    rewrite new_QueryBuilder_run in Hnew. injection Hnew as <- <-.
    apply bind_Some in Hrun as ([] & h2 & Hcb & Hrun).
    assert (Hsub1 : builders
                      (mkHeap
                         (builders h ++ [empty_fields (length (objects h))])
                         (objects h ++ [∅]))
                    !! length (builders h)
                    = Some (empty_fields (length (objects h))))
      by apply lookup_snoc.
    pose proof (chain_frame callback IH _ _ tt h2 _
                  (new_QueryBuilder_well_formed h Hwf) Hcb Hsub1)
      as (Hl & Hoth & Hlo & Hq & sb & Hsb & _).
    cbn [builders objects parameters empty_fields] in Hl, Hoth, Hlo, Hq.
    rewrite length_app in Hl, Hoth, Hlo, Hq. cbn [length] in Hl, Hoth, Hlo, Hq.
    assert (Hb2 : builders h2 !! this = Some b).
    { rewrite Hoth by lia.
      apply lookup_app_l_Some, Hb. }
    pose proof (lookup_lt_Some _ _ _ Hb2) as Hlt2.
    apply bind_Some in Hrun as (text & h3 & Hbuild & Hrun).
    rewrite build_run, Hsb in Hbuild. injection Hbuild as <- <-.
    apply bind_Some in Hrun as (b0 & h3 & Hget & Hrun).
    apply get_fields_Some in Hget as [Hget ->].
    rewrite Hb2 in Hget. injection Hget as <-.
    apply bind_Some in Hrun as (u & h3 & Hput & Hrun).
    apply put_fields_Some in Hput as [_ ->].
    apply bind_Some in Hrun as (b' & h3 & Hget & Hrun).
    apply get_fields_Some in Hget as [Hget ->]. cbn [builders] in Hget.
    rewrite list_lookup_insert_eq in Hget by exact Hlt2. injection Hget as <-.
    apply bind_Some in Hrun as (src & h4 & Hgp & Hrun).
    rewrite getParameters_run in Hgp. cbn [builders objects] in Hgp.
    rewrite list_lookup_insert_ne in Hgp by lia. rewrite Hsb in Hgp.
    destruct (objects h2 !! parameters sb) as [s|]; [|discriminate].
    injection Hgp as <- <-.
    apply bind_Some in Hrun as (u' & h5 & Hassign & Hrun).
    injection Hrun as _ <-.
    unfold Object_assign in Hassign.
    apply bind_Some in Hassign as (t & h6 & Ht & Hassign).
    apply read_object_Some in Ht as [_ ->].
    apply bind_Some in Hassign as (s' & h6 & Hs' & Hassign).
    apply read_object_Some in Hs' as [_ ->].
    apply write_object_Some in Hassign as [_ ->].
    cbn [builders objects parameters set_matchClauses].
    unfold call_frame. cbn [builders objects]. repeat split.
    + rewrite length_insert. lia.
    + intros other Hne Hlto.
      rewrite list_lookup_insert_ne by congruence.
      rewrite Hoth by lia.
      apply lookup_app_l. exact Hlto.
    + rewrite length_insert, length_app. lia.
    + intros q Hlq Hne. rewrite list_lookup_insert_ne by congruence.
      rewrite lookup_app_l by lia. rewrite Hq by lia.
      apply lookup_app_l. exact Hlq.
    + eexists. split; [apply list_lookup_insert_eq; exact Hlt2|].
      left. reflexivity.
Qed.

End Frame.

(** X14.  In every store a client can reach, a call on one builder, be it
    [clear], a [subquery] with its callback, or a union, leaves every other
    builder as it was: the other builder's fields, the content of its
    parameter map, the text [build] returns for it and the mapping
    [getParameters] returns for it are the same after the call. *)
Theorem call_leaves_other_builders :
  forall (V : Type) (h : heap V) (c : call V) (this other : loc)
         (b B : QueryBuilder) (r : loc) (h' : heap V),
    reachable h ->
    call_on c this h = Some (r, h') ->
    this <> other ->
    builders h !! this = Some b ->
    builders h !! other = Some B ->
    builders h' !! other = Some B
    /\ build other h' = Some (render B, h')
    /\ exists o,
         objects h !! parameters B = Some o
         /\ objects h' !! parameters B = Some o
         /\ exists r2 h2,
              getParameters other h' = Some (r2, h2)
              /\ objects h2 !! r2 = Some o.
Proof.
  intros V h c this other b B r h' [p Hrun] Hcall Hne Hb HB.
  assert (Hs : parameters_sound h).
  { apply (run_sound p empty_heap tt h Hrun). split.
    - constructor.
    - intros i j bi bj Hi. discriminate Hi. }
  destruct Hs as [Hwf Hown].
  destruct (call_frame_holds c this h r h' b Hwf Hcall Hb)
    as (_ & Hoth & _ & Hq & _).
  assert (HB' : builders h' !! other = Some B).
  { rewrite Hoth; [exact HB|congruence|eapply lookup_lt_Some; exact HB]. }
  destruct (well_formed_lookup h other B Hwf HB) as [o Ho].
  assert (Ho' : objects h' !! parameters B = Some o).
  { rewrite Hq; [exact Ho|eapply lookup_lt_Some; exact Ho|].
    intros Heq. apply Hne. symmetry.
    exact (Hown other this B b HB Hb Heq). }
  split; [exact HB'|].
  split; [rewrite build_run, HB'; reflexivity|].
  exists o. split; [exact Ho|]. split; [exact Ho'|].
  eexists _, _. rewrite getParameters_run, HB', Ho'.
  split; [reflexivity|]. cbn [objects]. apply lookup_snoc.
Qed.

(** ** Every method returns the builder it is called on *)

Section Returns.

Context {V : Type}.

Lemma flat_call_returns (c : call V) :
  is_subquery c = false -> call_returns_this c.
Proof.
  intros Hflat this h Hwf Hlt Hchk.
  destruct (lookup_lt_is_Some_2 _ _ Hlt) as [b Hb].
  destruct (well_formed_lookup h this b Hwf Hb) as [o Ho].
  destruct c; try discriminate Hflat; cbn [call_on];
    rewrite ?match_run, ?optionalMatch_run, ?where_run, ?andWhere_run,
      ?orWhere_run, ?with_run, ?return_run, ?orderBy_run, ?skip_run,
      ?limit_run;
    try (rewrite (update_fields_eq _ _ _ _ Hb); eauto; fail).
  - rewrite setParameter_run, Hb, Ho. eauto.
  - rewrite clear_run, Hb. eauto.
  - cbn [checked_call other_exists] in Hchk. apply Nat.ltb_lt in Hchk.
    destruct (lookup_lt_is_Some_2 _ _ Hchk) as [B HB].
    destruct (well_formed_lookup h _ B Hwf HB) as [oB HoB].
    rewrite (union_run _ _ _ _ _ _ Hb HB HoB). eauto.
  - cbn [checked_call other_exists] in Hchk. apply Nat.ltb_lt in Hchk.
    destruct (lookup_lt_is_Some_2 _ _ Hchk) as [B HB].
    destruct (well_formed_lookup h _ B Hwf HB) as [oB HoB].
    rewrite (unionAll_run _ _ _ _ _ _ Hb HB HoB). eauto.
Qed.

Lemma chain_returns cs :
  Forall call_returns_this cs ->
  forall this (h : heap V),
    well_formed h ->
    (this < length (builders h))%nat ->
    checked_chain other_exists cs this h = true ->
    exists h', chain_on cs this h = Some (tt, h').
Proof.
  induction 1 as [|c cs Hc _ IH]; intros this h Hwf Hlt Hchk.
  - rewrite chain_on_nil. unfold ret. eauto.
  - rewrite checked_chain_cons in Hchk. apply andb_prop in Hchk as [Hchk1 Hchk2].
    destruct (Hc this h Hwf Hlt Hchk1) as [h1 Hcall].
    rewrite Hcall in Hchk2. rewrite chain_on_cons, (bind_eq _ _ _ _ _ Hcall).
    destruct (lookup_lt_is_Some_2 _ _ Hlt) as [b Hb].
    destruct (call_frame_holds c this h this h1 b Hwf Hcall Hb) as (Hl & _).
    apply (IH this h1); [|lia|exact Hchk2].
    exact (call_well_formed c this h this h1 Hcall Hwf).
Qed.

Lemma call_returns (c : call V) : call_returns_this c.
Proof.
  induction c as [c Hflat|callback IH] using call_nested_ind.
  - apply flat_call_returns, Hflat.
  - intros this h Hwf Hlt Hchk.
    destruct (lookup_lt_is_Some_2 _ _ Hlt) as [b Hb].
    rewrite checked_call_Subquery in Hchk. rewrite call_on_Subquery.
    pose proof (new_QueryBuilder_well_formed h Hwf) as Hwf1.
    destruct (chain_returns callback IH (length (builders h)) _ Hwf1
                ltac:(cbn [builders]; rewrite length_app; simpl; lia) Hchk)
      as [h2 Hcb].
    pose proof (chain_well_formed callback
                  (proj2 (List.Forall_forall _ _)
                     (fun c _ => call_well_formed c))
                  _ _ _ _ Hcb Hwf1) as Hwf2.
    destruct (chain_frame callback
                (proj2 (List.Forall_forall _ _)
                   (fun c _ => call_frame_holds c))
                _ _ tt h2 _ Hwf1 Hcb (lookup_snoc _ _))
      as (_ & Hoth & _ & _ & sb & Hsb & _).
    assert (Hb2 : builders h2 !! this = Some b).
    { rewrite Hoth; cbn [builders];
        [apply lookup_app_l_Some, Hb|lia|rewrite length_app; simpl; lia]. }
    destruct (well_formed_lookup h2 _ sb Hwf2 Hsb) as [s Hs].
    destruct (well_formed_lookup h2 _ b Hwf2 Hb2) as [t Ht].
    eexists.
    exact (subquery_general_run h this _ h2 sb b s t Hlt Hcb Hsb Hb2 Hs Ht).
Qed.

End Returns.

(** X15.  No method fails and every one returns the builder it was called
    on, ready for the next call of a chain: in every store a client can
    reach, a chain of calls on an existing builder runs to its end, the
    builders handed to [union] and [unionAll] being existing ones; the
    builder is still there afterwards, and [build] returns its text. *)
Theorem chains_run_to_the_end :
  forall (V : Type) (h : heap V) (cs : list (call V)) (this : loc),
    reachable h ->
    (this < length (builders h))%nat ->
    checked_chain other_exists cs this h = true ->
    exists (h' : heap V) (b' : QueryBuilder),
      chain_on cs this h = Some (tt, h')
      /\ Forall (fun c => forall h0 r h1,
                   call_on c this h0 = Some (r, h1) -> r = this) cs
      /\ builders h' !! this = Some b'
      /\ build this h' = Some (render b', h')
      /\ reachable h'.
Proof.
  intros V h cs this Hreach Hlt Hchk.
  pose proof (reachable_well_formed h Hreach) as Hwf.
  destruct (chain_returns cs
              (proj2 (List.Forall_forall _ _) (fun c _ => call_returns c))
              this h Hwf Hlt Hchk) as [h' Hrun].
  destruct (lookup_lt_is_Some_2 _ _ Hlt) as [b Hb].
  destruct (chain_frame cs
              (proj2 (List.Forall_forall _ _)
                 (fun c _ => call_frame_holds c))
              this h tt h' b Hwf Hrun Hb) as (_ & _ & _ & _ & b' & Hb' & _).
  exists h', b'. split; [exact Hrun|].
  split.
  { apply List.Forall_forall. intros c _ h0 r h1 Hcall.
    destruct (is_subquery c) eqn:Hs.
    - destruct c; try discriminate Hs. rewrite call_on_Subquery in Hcall.
      apply subquery_builders in Hcall. tauto.
    - apply flat_call_builders in Hcall; [tauto|exact Hs]. }
  split; [exact Hb'|].
  split; [rewrite build_run, Hb'; reflexivity|].
  destruct Hreach as [p Hp].
  exists (p ++ map (Call this) cs).
  clear - Hp Hrun.
  revert h Hp Hrun. generalize (@empty_heap V) as h0.
  induction p as [|s p IH]; intros h0 h Hp Hrun.
  - injection Hp as <-. cbn [app].
    revert h0 Hrun. induction cs as [|c cs IHcs]; intros h0 Hrun.
    + rewrite chain_on_nil in Hrun. exact Hrun.
    + rewrite chain_on_cons in Hrun.
      apply bind_Some in Hrun as (r & h1 & Hcall & Hrun).
      cbn [map run exec].
      rewrite (bind_eq _ _ _ tt h1)
        by (rewrite (bind_eq _ _ _ _ _ Hcall); reflexivity).
      exact (IHcs h1 Hrun).
  - cbn [app run] in *. apply bind_Some in Hp as (u & h1 & Hs & Hp).
    rewrite (bind_eq _ _ _ _ _ Hs). exact (IH h1 h Hp Hrun).
Qed.

(** ** The further properties at work *)

Lemma clear_resets_witness :
  exists h1 : heap Z,
    clear 0%nat two_builders = Some (0%nat, h1)
    /\ build 0%nat h1 = Some (EmptyString, h1)
    /\ builders h1 !! 1%nat = Some car_fields.
Proof.
  destruct (clear_resets Z two_builders 0%nat person_fields eq_refl)
    as (h1 & Hclear & Hbuild & _ & Hother & _).
  exists h1. split; [exact Hclear|]. split; [exact Hbuild|].
  rewrite Hother by discriminate. reflexivity.
Defined.


Lemma calls_on_different_fields_commute_witness :
  (call_on (AndWhere "p.vip") 0%nat ;;;
   call_on (SetParameter "vip" 1) 0%nat) two_builders
  = (call_on (SetParameter "vip" 1) 0%nat ;;;
     call_on (AndWhere "p.vip") 0%nat) two_builders.
Proof.
  apply (calls_on_different_fields_commute Z two_builders 0%nat
           (AndWhere "p.vip") (SetParameter "vip" 1)
           FWhereClauses FParameters eq_refl eq_refl).
  discriminate.
Defined.


Lemma build_after_union_witness :
  exists h1 text,
    union 0%nat 1%nat two_builders = Some (0%nat, h1)
    /\ build 0%nat h1 = Some (text, h1)
    /\ lines text
       = ["MATCH (p:Person)"; "WHERE p.age > $minAge";
          "RETURN p.name AS item"; "UNION"; "MATCH (c:Car)";
          "RETURN c.brand AS item"].
Proof.
  destruct (build_after_union Z two_builders 0%nat 1%nat person_fields
              car_fields car_parameters eq_refl eq_refl eq_refl)
    as [(h1 & text & Hunion & Hbuild & _ & Hlines) _].
  exists h1, text. split; [exact Hunion|]. split; [exact Hbuild|].
  rewrite Hlines. reflexivity.
Defined.

Lemma union_twice_witness :
  exists (h2 : heap Z) (A2 : QueryBuilder),
    (union 0%nat 1%nat ;;; union 0%nat 1%nat) two_builders
    = Some (0%nat, h2)
    /\ builders h2 !! 0%nat = Some A2
    /\ objects h2 !! parameters A2 = Some car_parameters.
Proof.
  destruct (union_twice Z two_builders 0%nat 1%nat 1%nat person_fields
              car_fields car_fields car_parameters car_parameters
              ltac:(discriminate) ltac:(discriminate)
              eq_refl eq_refl eq_refl eq_refl eq_refl)
    as (h2 & A2 & Hrun & HA2 & _ & Hparams & _).
  exists h2, A2. auto.
Defined.


Lemma build_keeps_every_entry_witness :
  List.filter Boolean (build_parts person_fields)
  = ["MATCH (p:Person)"; "WHERE p.age > $minAge"; "RETURN p.name AS item"].
Proof.
  destruct (build_keeps_every_entry Z two_builders 0%nat person_fields
              two_builders_reachable eq_refl) as [_ Hparts].
  rewrite Hparts. reflexivity.
Defined.

Lemma build_empty_iff_nothing_added_witness :
  render person_fields = EmptyString <-> nothing_added person_fields.
Proof.
  exact (build_empty_iff_nothing_added Z two_builders 0%nat person_fields
           two_builders_reachable eq_refl).
Defined.

Lemma where_buffer_begins_with_where_witness :
  where_buffer_shaped person_fields.
Proof.
  exact (where_buffer_begins_with_where Z two_builders 0%nat person_fields
           two_builders_reachable eq_refl).
Defined.

Lemma builders_own_their_parameters_witness :
  parameters person_fields <> parameters car_fields.
Proof.
  destruct (builders_own_their_parameters Z two_builders 0%nat 1%nat
              person_fields car_fields two_builders_reachable
              eq_refl eq_refl) as [_ Hown].
  apply Hown. discriminate.
Defined.

Lemma call_leaves_other_builders_witness :
  exists h' : heap Z,
    call_on busy_call 0%nat two_builders = Some (0%nat, h')
    /\ builders h' !! 1%nat = Some car_fields
    /\ build 1%nat h' = Some (render car_fields, h')
    /\ objects h' !! parameters car_fields = Some car_parameters.
Proof.
  eassert (Hcall : call_on busy_call 0%nat two_builders = Some (0%nat, _))
    by (vm_compute; reflexivity).
  destruct (call_leaves_other_builders Z two_builders busy_call 0%nat 1%nat
              person_fields car_fields 0%nat _ two_builders_reachable Hcall
              ltac:(discriminate) eq_refl eq_refl)
    as (Hfields & Hbuild & o & Ho & Ho' & _).
  eexists. split; [exact Hcall|]. split; [exact Hfields|].
  split; [exact Hbuild|]. rewrite Ho'. rewrite <- Ho. reflexivity.
Defined.

Lemma chains_run_to_the_end_witness :
  exists (h' : heap Z) (b' : QueryBuilder),
    chain_on busy_chain 0%nat two_builders = Some (tt, h')
    /\ builders h' !! 0%nat = Some b'
    /\ build 0%nat h' = Some (render b', h').
Proof.
  destruct (chains_run_to_the_end Z two_builders busy_chain 0%nat
              two_builders_reachable ltac:(simpl; lia) eq_refl)
    as (h' & b' & Hrun & _ & Hb' & Hbuild & _).
  exists h', b'. auto.
Defined.

(** ** One element, one line *)

Lemma flat_map_lines_no_newline l :
  Forall (fun f => has_newline f = false) l -> flat_map lines l = l.
Proof.
  induction 1 as [|x l Hx _ IH]; [reflexivity|].
  cbn [flat_map]. rewrite (lines_no_newline x Hx), IH. reflexivity.
Qed.

(** X16.  When no stored fragment holds a line feed, the lines of the text
    are the non-empty elements [build] joins, one element per line and in
    the fixed order: match buffer, WHERE buffer, WITH buffer, RETURN,
    ORDER BY, SKIP, LIMIT.  With nothing to join the text is empty. *)
Theorem lines_of_build :
  forall b : QueryBuilder,
    Forall (fun f => has_newline f = false) (stored_fragments b) ->
    (List.filter Boolean (build_parts b) <> [] ->
     lines (render b) = List.filter Boolean (build_parts b))
    /\ (List.filter Boolean (build_parts b) = [] ->
        render b = EmptyString).
Proof.
  intros b Hst. split.
  - intros Hne. unfold render. rewrite lines_join by exact Hne.
    apply flat_map_lines_no_newline. apply List.Forall_forall.
    intros f Hf. apply filter_In in Hf as [Hf _].
    rewrite build_parts_split in Hf. apply in_app_or in Hf as [Hf|Hf].
    + exact (proj1 (List.Forall_forall _ _) Hst f Hf).
    + apply In_pagination_parts in Hf as (w & n & _ & ->).
      apply pagination_line_no_newline.
  - intros Hnil. unfold render. rewrite Hnil. reflexivity.
Qed.

Lemma lines_of_build_witness :
  lines (render (set_limitValue (Some 5)
                   (set_skipValue (Some 10)
                      (set_orderByClause "ORDER BY p.age DESC" person_fields))))
  = ["MATCH (p:Person)"; "WHERE p.age > $minAge"; "RETURN p.name AS item";
     "ORDER BY p.age DESC"; "SKIP 10"; "LIMIT 5"].
Proof.
  destruct (lines_of_build
              (set_limitValue (Some 5)
                 (set_skipValue (Some 10)
                    (set_orderByClause "ORDER BY p.age DESC" person_fields))))
    as [Hlines _].
  - repeat constructor.
  - rewrite Hlines; [reflexivity|discriminate].
Defined.
